(** * Hybrid BM25 + embedding retrieval engine (src/backend/rag_engine.py)

    A shallow embedding of [RAGEngine] ([__init__], [index], [query]) and of
    the part of the [rank_bm25.BM25Okapi] library the engine calls.  Scores
    are real numbers (floating-point rounding is not modelled); exceptions
    are an explicit [result] type, and the engine object is passed as
    explicit state, so that a Python call that mutates the engine and then
    raises is a pair of the new state and an exception. *)

From Stdlib Require Import String Ascii List Arith Lia Bool Sorting.Sorted
  Sorting.Permutation NArith ZArith Reals Lra.
Import ListNotations.

(** ** Exceptions and the error monad *)

Inductive exn :=
| ZeroDivisionError   (** raised inside [BM25Okapi.__init__] *)
| IndexError          (** out-of-range list / array access *)
| EncodeError.        (** the encoder's [encode] call failed *)

Inductive result (A : Type) :=
| Ok (a : A)
| Raise (e : exn).
Arguments Ok {A} a.
Arguments Raise {A} e.

Definition bind {A B} (m : result A) (f : A -> result B) : result B :=
  match m with
  | Ok a => f a
  | Raise e => Raise e
  end.

Notation "'let*' x ':=' m 'in' f" := (bind m (fun x => f))
  (at level 200, x name, m at level 100, f at level 200).

Fixpoint mapM {A B} (f : A -> result B) (l : list A) : result (list B) :=
  match l with
  | [] => Ok []
  | x :: l' => let* y := f x in let* ys := mapM f l' in Ok (y :: ys)
  end.

(** Python [xs[i]] on a list / numpy array of floats. *)
Definition py_get (xs : list R) (i : nat) : result R :=
  match nth_error xs i with
  | Some v => Ok v
  | None => Raise IndexError
  end.

(** Python [xs[i] = v] on a list: [IndexError] out of range. *)
Definition py_set (xs : list R) (i : nat) (v : R) : result (list R) :=
  if i <? length xs then Ok (firstn i xs ++ v :: skipn (S i) xs)
  else Raise IndexError.

(** Python [xs[:k]] for an integer [k]: a negative bound drops [-k]
    elements from the end. *)
Definition py_slice_upto {A} (xs : list A) (k : Z) : list A :=
  if (0 <=? k)%Z then firstn (Z.to_nat k) xs
  else firstn (length xs - Z.to_nat (- k)) xs.

(** ** Strings *)

(** [str.isspace] on the ASCII range: \t \n \v \f \r, the separators
    0x1c-0x1f, and the space. *)
Definition is_space (c : ascii) : bool :=
  let n := nat_of_ascii c in
  ((9 <=? n) && (n <=? 13)) || ((28 <=? n) && (n <=? 32)).

Fixpoint split_aux (s cur : string) : list string :=
  match s with
  | EmptyString => match cur with EmptyString => [] | _ => [cur] end
  | String c s' =>
      if is_space c then
        match cur with
        | EmptyString => split_aux s' EmptyString
        | _ => cur :: split_aux s' EmptyString
        end
      else split_aux s' (String.append cur (String c EmptyString))
  end.

(** Python [s.split()] (no separator): maximal runs of non-whitespace. *)
Definition split (s : string) : list string := split_aux s EmptyString.

Definition lower_char (c : ascii) : ascii :=
  let n := nat_of_ascii c in
  if (65 <=? n) && (n <=? 90) then ascii_of_nat (n + 32) else c.

(** Python [s.lower()] on ASCII text. *)
Fixpoint lower (s : string) : string :=
  match s with
  | EmptyString => EmptyString
  | String c s' => String (lower_char c) (lower s')
  end.

(** Python [str(n)] for a natural number. *)
Fixpoint str_digits (fuel n : nat) (acc : string) : string :=
  match fuel with
  | 0 => acc
  | S f =>
      let acc' := String (ascii_of_nat (48 + n mod 10)) acc in
      if n <? 10 then acc' else str_digits f (n / 10) acc'
  end.

Definition str_of_nat (n : nat) : string := str_digits (S n) n EmptyString.

(** ** Highlights (rag_engine.py lines 80, 87-88) *)

(** [{token.lower() for token in query_tokens if token}], as a list used
    only through membership. *)
Definition token_set (query_tokens : list string) : list string :=
  map lower (filter (fun t => negb (String.eqb t EmptyString)) query_tokens).

Definition mem (s : string) (l : list string) : bool :=
  existsb (String.eqb s) l.

(** Insertion into a strictly increasing list, dropping duplicates. *)
Fixpoint insert_uniq (x : string) (l : list string) : list string :=
  match l with
  | [] => [x]
  | y :: l' =>
      match String.compare x y with
      | Lt => x :: l
      | Eq => l
      | Gt => y :: insert_uniq x l'
      end
  end.

(** Python [sorted(set(xs))] on strings. *)
Definition sorted_set (l : list string) : list string :=
  fold_right insert_uniq [] l.

(** [highlights = sorted({t for t in doc_tokens if t.lower() in token_set})]
    with [doc_tokens = [t for t in doc.split() if t]]. *)
Definition highlights_of (query_tokens : list string) (doc : string)
  : list string :=
  let ts := token_set query_tokens in
  let doc_tokens := filter (fun t => negb (String.eqb t EmptyString)) (split doc) in
  sorted_set (filter (fun t => mem (lower t) ts) doc_tokens).

Example highlights_spec_example :
  map (highlights_of (split "cat dog"))
      ["the cat sat"; "the dog ran"; "cats and dogs"]%string
  = [["cat"]; ["dog"]; []]%string.
Proof. reflexivity. Qed.

(** ** [rank_bm25.BM25Okapi] (k1 = 1.5, b = 0.75, epsilon = 0.25)

    The library's [__init__] computes [avgdl = num_doc / corpus_size] and
    [average_idf = idf_sum / len(self.idf)]; both divisions raise
    [ZeroDivisionError] when their denominator is 0.  A per-document
    frequency dictionary is kept here as the document's token list, read
    through [count_tok] ([doc.get(q) or 0]). *)

Definition k1 : R := 1.5.
Definition b : R := 0.75.
Definition epsilon : R := 0.25.

Fixpoint count_tok (w : string) (doc : list string) : nat :=
  match doc with
  | [] => 0
  | t :: doc' => (if String.eqb t w then 1 else 0) + count_tok w doc'
  end.

(** [nd[w]]: number of documents containing [w]. *)
Definition doc_freq (corpus : list (list string)) (w : string) : nat :=
  length (filter (fun d => mem w d) corpus).

(** The keys of [nd], in dictionary insertion order. *)
Definition vocab (corpus : list (list string)) : list string :=
  fold_left (fun acc w => if mem w acc then acc else acc ++ [w])
    (concat corpus) [].

Definition raw_idf (N n : nat) : R :=
  (ln (INR N - INR n + 0.5) - ln (INR n + 0.5))%R.

Record BM25Okapi := {
  corpus_size : nat;
  avgdl : R;
  doc_freqs : list (list string);
  doc_len : list nat;
  idf : list (string * R)
}.

Definition BM25Okapi_init (corpus : list (list string)) : result BM25Okapi :=
  let N := length corpus in
  let num_doc := fold_left (fun acc d => acc + length d) corpus 0 in
  if N =? 0 then Raise ZeroDivisionError
  else
    let idfs := map (fun w => (w, raw_idf N (doc_freq corpus w))) (vocab corpus) in
    let idf_sum := fold_left (fun acc p => acc + snd p)%R idfs 0%R in
    if length idfs =? 0 then Raise ZeroDivisionError
    else
      let eps := (epsilon * (idf_sum / INR (length idfs)))%R in
      Ok {| corpus_size := N;
            avgdl := (INR num_doc / INR N)%R;
            doc_freqs := corpus;
            doc_len := map (@length string) corpus;
            idf := map (fun p => (fst p, if Rlt_dec (snd p) 0 then eps else snd p))
                     idfs |}.

Fixpoint lookup (w : string) (d : list (string * R)) : option R :=
  match d with
  | [] => None
  | (k, v) :: d' => if String.eqb k w then Some v else lookup w d'
  end.

(** One query token's contribution to one document's score. *)
Definition bm25_term (bm : BM25Okapi) (q : string) (doc : list string) (dl : nat)
  : R :=
  let q_freq := INR (count_tok q doc) in
  let idf_q := match lookup q (idf bm) with Some v => v | None => 0%R end in
  (idf_q * (q_freq * (k1 + 1) /
            (q_freq + k1 * (1 - b + b * INR dl / avgdl bm))))%R.

(** [get_scores(query)]: one score per document, in document order. *)
Definition get_scores (bm : BM25Okapi) (query : list string) : list R :=
  map (fun p => fold_left (fun acc q => acc + bm25_term bm q (fst p) (snd p))%R
                  query 0%R)
      (combine (doc_freqs bm) (doc_len bm)).

(** ** Stable descending sort: [sorted(xs, key=key, reverse=True)]

    Python's [reverse=True] keeps the sort stable: the result is the
    permutation of [xs] ordered by decreasing key in which equal keys keep
    their input order.  Insertion of each element in front of the first
    element whose key is not larger builds that permutation. *)

Section Rank.
Variable key : nat -> R.

Fixpoint insert_desc (x : nat) (l : list nat) : list nat :=
  match l with
  | [] => [x]
  | y :: l' => if Rle_dec (key y) (key x) then x :: l else y :: insert_desc x l'
  end.

Definition sort_desc (l : list nat) : list nat := fold_right insert_desc [] l.
End Rank.

(** ** The engine ([RAGEngine]) *)

(** An encoder's [encode] call: one vector per input text, or a failure
    ([None]) that surfaces as an exception.  [.tolist()] and
    [list(map(float, v))] are identities on this representation. *)
Definition encoder := list string -> option (list (list R)).

Definition encode (e : encoder) (texts : list string) : result (list (list R)) :=
  match e texts with
  | Some vs => Ok vs
  | None => Raise EncodeError
  end.

Record RAGEngine := {
  corpus : list string;
  bm25 : option BM25Okapi;
  embedder : option encoder;
  doc_embeddings : list (list R)
}.

Record RetrievedChunk := {
  doc_id : string;
  text : string;
  score : R;
  language : string;
  highlights : list string
}.

(** The return value of a Python call. *)
Inductive pyobj :=
| PyNone
| PyInt (n : Z).

(** [RAGEngine(corpus)]; [flag_model] is [None] when [FlagEmbedding] is not
    importable. *)
Definition RAGEngine_init (flag_model : option encoder) (corpus0 : list string)
  : result RAGEngine :=
  let tokenized_corpus := map split corpus0 in
  let* bm := match tokenized_corpus with
             | [] => Ok None
             | _ => let* m := BM25Okapi_init tokenized_corpus in Ok (Some m)
             end in
  let* embs := match flag_model, corpus0 with
               | Some e, _ :: _ => encode e corpus0
               | _, _ => Ok []
               end in
  Ok {| corpus := corpus0; bm25 := bm; embedder := flag_model;
        doc_embeddings := embs |}.

(** [index(documents)]: the state after the call (the corpus is extended
    before anything can raise) and the call's outcome. *)
Definition index (st : RAGEngine) (documents : list string)
  : RAGEngine * result pyobj :=
  let corpus' := corpus st ++ documents in
  let st1 := {| corpus := corpus'; bm25 := bm25 st; embedder := embedder st;
                doc_embeddings := doc_embeddings st |} in
  let tokenized_corpus := map split corpus' in
  match BM25Okapi_init tokenized_corpus with
  | Raise e => (st1, Raise e)
  | Ok m =>
      let st2 := {| corpus := corpus'; bm25 := Some m; embedder := embedder st;
                    doc_embeddings := doc_embeddings st |} in
      match embedder st with
      | None => (st2, Ok PyNone)
      | Some e =>
          match encode e corpus' with
          | Raise ex => (st2, Raise ex)
          | Ok vs =>
              ({| corpus := corpus'; bm25 := Some m; embedder := embedder st;
                  doc_embeddings := vs |}, Ok PyNone)
          end
      end
  end.

(** Engine states reachable from the constructor by [index] calls, whether
    those calls returned or raised. *)
Inductive reachable : RAGEngine -> Prop :=
| reach_init fm c st : RAGEngine_init fm c = Ok st -> reachable st
| reach_index st docs : reachable st -> reachable (fst (index st docs)).

(** *** Semantic scores (lines 58-73) *)

Definition sum_sq (v : list R) : R := fold_left (fun acc x => acc + x * x)%R v 0%R.

(** [sum(q * d for q, d in zip(query_vector, doc_vector))] *)
Definition dot (qv dv : list R) : R :=
  fold_left (fun acc p => acc + fst p * snd p)%R (combine qv dv) 0%R.

(** [sqrt(sum(...)) or 1.0] *)
Definition norm_query_of (qv : list R) : R :=
  let n := sqrt (sum_sq qv) in if Req_EM_T n 0 then 1%R else n.

(** [for idx, doc_vector in enumerate(self._doc_embeddings): ...] *)
Fixpoint cosine_loop (qv : list R) (idx : nat) (docs : list (list R))
  (scores : list R) : result (list R) :=
  match docs with
  | [] => Ok scores
  | dv :: docs' =>
      let norm_doc := sqrt (sum_sq dv) in
      if Req_EM_T norm_doc 0 then cosine_loop qv (S idx) docs' scores
      else
        let* scores' := py_set scores idx
                          (dot qv dv / (norm_query_of qv * norm_doc))%R in
        cosine_loop qv (S idx) docs' scores'
  end.

(** [query_vector]: [None] unless an encoder and document embeddings exist
    and [encode([text])] returns a non-empty list. *)
Definition query_vector_of (st : RAGEngine) (text : string)
  : result (option (list R)) :=
  match embedder st, doc_embeddings st with
  | Some e, _ :: _ =>
      let* enc := encode e [text] in
      Ok (match enc with [] => None | v :: _ => Some v end)
  | _, _ => Ok None
  end.

(** [embedding_scores] after line 73. *)
Definition embedding_scores_of (st : RAGEngine) (text : string)
  : result (list R) :=
  let zeros := repeat 0%R (length (corpus st)) in
  let* query_vector := query_vector_of st text in
  match query_vector with
  | Some ((_ :: _) as qv) => cosine_loop qv 0 (doc_embeddings st) zeros
  | _ => Ok zeros
  end.

(** The ranking key [0.6 * bm25_scores[idx] + 0.4 * embedding_scores[idx]]. *)
Definition fused (l s : R) : R := (0.6 * l + 0.4 * s)%R.

Definition fused_keys (bm25_scores embedding_scores : list R) (n : nat)
  : result (list R) :=
  mapM (fun idx => let* l := py_get bm25_scores idx in
                   let* s := py_get embedding_scores idx in
                   Ok (fused l s)) (seq 0 n).

Section Query.
(** [langdetect.detect]: [None] when it raises. *)
Variable detect : string -> option string.

Definition make_chunk (st : RAGEngine) (query_tokens : list string)
  (bm25_scores : list R) (idx : nat) : RetrievedChunk :=
  let doc := nth idx (corpus st) EmptyString in
  {| doc_id := str_of_nat idx;
     text := doc;
     score := nth idx bm25_scores 0%R;
     language := match detect doc with Some l => l | None => "unknown"%string end;
     highlights := highlights_of query_tokens doc |}.

(** [query(text, top_k)]. *)
Definition query (st : RAGEngine) (text : string) (top_k : Z)
  : result (list RetrievedChunk) :=
  match corpus st, bm25 st with
  | [], _ | _, None => Ok []
  | _, Some bm =>
      let n := length (corpus st) in
      let query_tokens := split text in
      let bm25_scores := get_scores bm query_tokens in
      let* embedding_scores := embedding_scores_of st text in
      let* keys := fused_keys bm25_scores embedding_scores n in
      let ranked_indices :=
        py_slice_upto (sort_desc (fun idx => nth idx keys 0%R) (seq 0 n)) top_k in
      Ok (map (make_chunk st query_tokens bm25_scores) ranked_indices)
  end.
End Query.

(** ** Definitions used by the statements *)

(** Cosine similarity as the specification states it: 0 when either
    vector has norm 0, otherwise dot / (norm q * norm d). *)
Definition cosine_similarity_spec (qv dv : list R) : R :=
  let nq := sqrt (sum_sq qv) in
  let nd := sqrt (sum_sq dv) in
  if Req_EM_T nq 0 then 0%R
  else if Req_EM_T nd 0 then 0%R
  else (dot qv dv / (nq * nd))%R.

(** An encoder that returns one vector per input text. *)
Definition encoder_ok (e : encoder) : Prop :=
  forall texts vs, e texts = Some vs -> length vs = length texts.

(** ** Concrete engines *)

Definition no_detect : string -> option string := fun _ => None.

(** [RAGEngine()] with [FlagEmbedding] not installed. *)
Definition engine_empty : RAGEngine :=
  {| corpus := []; bm25 := None; embedder := None; doc_embeddings := [] |}.

(** [RAGEngine()] with an encoder [e]. *)
Definition engine_with (e : encoder) : RAGEngine :=
  {| corpus := []; bm25 := None; embedder := Some e; doc_embeddings := [] |}.

(** An encoder mapping every text to the vector [1]. *)
Definition unit_encoder : encoder := fun texts => Some (map (fun _ => [1%R]) texts).

(** An encoder whose single-text calls fail (an unreachable model server
    answering only batch requests). *)
Definition flaky_encoder : encoder :=
  fun texts => match texts with
               | [_] => None
               | _ => Some (map (fun _ => [1%R]) texts)
               end.

Definition engine_a : RAGEngine := fst (index engine_empty ["a"%string]).
Definition engine_ab : RAGEngine := fst (index engine_empty ["a"; "b"]%string).
Definition engine_bab : RAGEngine := fst (index engine_empty ["b"; "a"; "b"]%string).
Definition engine_flaky : RAGEngine :=
  fst (index (engine_with flaky_encoder) ["a"; "b"]%string).
Definition engine_unit : RAGEngine :=
  fst (index (engine_with unit_encoder) ["a"%string]).

(** * Document ingestion (src/backend/documents.py) *)

(** Exceptions of the HTTP layer and of the modules it calls. *)
Inductive app_exn :=
| ValueError (msg : string)
| HTTPException (status_code : nat) (detail : string)
| EngineError (e : exn)   (** an exception raised by [RAGEngine] *)
| OtherError.             (** any other exception (PDF parsing, ...) *)

Inductive aresult (A : Type) :=
| AOk (a : A)
| ARaise (e : app_exn).
Arguments AOk {A} a.
Arguments ARaise {A} e.

Definition abind {A B} (m : aresult A) (f : A -> aresult B) : aresult B :=
  match m with
  | AOk a => f a
  | ARaise e => ARaise e
  end.

Notation "'let+' x := m 'in' f" := (abind m (fun x => f))
  (at level 200, x name, m at level 100, f at level 200).

Definition bytes := list Byte.byte.

(** Python [p.rfind(ch)] for one character: the last index, or -1. *)
Fixpoint rfind_aux (ch : ascii) (p : list ascii) (i best : Z) : Z :=
  match p with
  | [] => best
  | c :: p' => rfind_aux ch p' (i + 1) (if Ascii.eqb c ch then i else best)
  end.

Definition rfind (ch : ascii) (p : list ascii) : Z := rfind_aux ch p 0 (-1).

(** [os.path.splitext(p)[1]] on POSIX ([genericpath._splitext] with
    sep '/' and extsep '.'): the suffix starts at the last dot when that
    dot comes after the last '/', and when the file name before it is not
    made of dots only (the [while] loop skipping leading dots). *)
Definition splitext_ext (p : list ascii) : list ascii :=
  let sepIndex := rfind "/" p in
  let dotIndex := rfind "." p in
  if (sepIndex <? dotIndex)%Z then
    let leading :=
      firstn (Z.to_nat (dotIndex - (sepIndex + 1))) (skipn (Z.to_nat (sepIndex + 1)) p) in
    if existsb (fun c => negb (Ascii.eqb c ".")) leading
    then skipn (Z.to_nat dotIndex) p
    else []
  else [].

Definition ALLOWED_TEXT_EXTENSIONS : list string :=
  [".txt"; ".md"; ".markdown"; ".json"; ".csv"; ".tsv"; ".yml"; ".yaml";
   ".html"; ".xml"]%string.

Section Documents.
(** [data.decode("utf-8", errors="ignore")]. *)
Variable decode : bytes -> string.
(** [_extract_from_pdf(data)], which may raise. *)
Variable extract_from_pdf : bytes -> aresult (list string).

(** [extract_texts_from_upload(filename, data)]; [None] is a missing file
    name (printed as "None" by the f-string). *)
Definition extract_texts_from_upload (filename : option string) (data : bytes)
  : aresult (list string) :=
  let name := match filename with Some f => f | None => EmptyString end in
  let suffix := lower (string_of_list_ascii (splitext_ext (list_ascii_of_string name))) in
  if existsb (String.eqb suffix) ALLOWED_TEXT_EXTENSIONS then AOk [decode data]
  else if String.eqb suffix ".pdf" then extract_from_pdf data
  else ARaise (ValueError (String.append "Unsupported file type: "
                             (match filename with Some f => f | None => "None" end))).

End Documents.

(** * HTTP endpoints (src/backend/app.py) *)

(** Python [s.strip()] with the whitespace of [is_space]. *)
Fixpoint lstrip_chars (l : list ascii) : list ascii :=
  match l with
  | c :: l' => if is_space c then lstrip_chars l' else l
  | [] => []
  end.

Definition strip (s : string) : string :=
  string_of_list_ascii (rev (lstrip_chars (rev (lstrip_chars (list_ascii_of_string s))))).

Section Upload.
Variable decode : bytes -> string.
Variable extract_from_pdf : bytes -> aresult (list string).

(** The loop of lines 172-183 over the uploaded files, given as their
    names and contents: [extracted.extend(...)] for each file, a
    [ValueError] turned into a 400 and any other exception into a 500. *)
Fixpoint extract_all (files : list (option string * bytes)) : aresult (list string) :=
  match files with
  | [] => AOk []
  | (filename, contents) :: files' =>
      match extract_texts_from_upload decode extract_from_pdf filename contents with
      | AOk texts =>
          let+ rest := extract_all files' in AOk (texts ++ rest)
      | ARaise (ValueError msg) => ARaise (HTTPException 400 msg)
      | ARaise _ => ARaise (HTTPException 500 "Failed to process uploaded files.")
      end
  end.

(** [upload_documents(files)]; the result [(files, documents)] is the
    returned dict. *)
Definition upload_documents (st : RAGEngine) (files : list (option string * bytes))
  : RAGEngine * aresult (nat * nat) :=
  match files with
  | [] => (st, ARaise (HTTPException 400 "No files uploaded."))
  | _ =>
      match extract_all files with
      | ARaise e => (st, ARaise e)
      | AOk extracted =>
          let cleaned :=
            filter (fun t => negb (String.eqb t EmptyString)) (map strip extracted) in
          match cleaned with
          | [] => (st, ARaise (HTTPException 400
                                 "No text content extracted from provided files."))
          | _ =>
              let (st', r) := index st cleaned in
              (st', match r with
                    | Ok _ => AOk (length files, length cleaned)
                    | Raise e => ARaise (EngineError e)
                    end)
          end
      end
  end.
End Upload.

(** [max((doc.score for doc in docs), default=0.0)] (line 91): the first
    item, replaced by every later item greater than it. *)
Definition max_score (scores : list R) : R :=
  match scores with
  | [] => 0%R
  | x :: xs => fold_left (fun m y => if Rlt_dec m y then y else m) xs x
  end.

(** [doc.score / max_score if max_score else 0.0] (line 116). *)
Definition confidence (score max_score : R) : R :=
  if Req_EM_T max_score 0 then 0%R else (score / max_score)%R.

(** The [confidence] of each returned document, in order. *)
Definition confidences (docs : list RetrievedChunk) : list R :=
  let m := max_score (map score docs) in
  map (fun d => confidence (score d) m) docs.

(** * LLM client (src/backend/llm_client.py) *)

(** Python truthiness of an [Optional[str]]. *)
Definition truthy (o : option string) : bool :=
  match o with
  | Some s => negb (String.eqb s EmptyString)
  | None => false
  end.

(** Python [a or b] on [Optional[str]]. *)
Definition py_or (a b : option string) : option string :=
  if truthy a then a else b.

(** Python [a == b] on [Optional[str]]. *)
Definition opt_str_eqb (a b : option string) : bool :=
  match a, b with
  | Some x, Some y => String.eqb x y
  | None, None => true
  | _, _ => false
  end.

(** Python [a or b] on [str]. *)
Definition py_or_str (a b : string) : string :=
  if String.eqb a EmptyString then b else a.

(** The settings read in [__init__]: the primary endpoint, the keys, and
    whether [float(os.getenv("LLM_TEMPERATURE", "0.2"))] and
    [float(os.getenv("OPENAI_TEMPERATURE", "0.3"))] parse. *)
Record llm_config := {
  base_url : option string;
  api_key : option string;
  openai_api_key : option string;
  llm_temperature_valid : bool;
  openai_temperature_valid : bool
}.

Definition is_enabled (cfg : llm_config) : bool :=
  truthy (base_url cfg) && truthy (api_key cfg).

(** The reply to one chat-completion request: [ChatFailed] when the
    [try] block raises (connection, HTTP status, JSON), otherwise the
    [content] of each of the body's [choices] ([None] when missing or
    null).  A request's reply is a parameter of the functions below, so
    their statements hold whatever the remote endpoints answer. *)
Inductive chat_response :=
| ChatFailed
| ChatOk (contents : list (option string)).

Definition content_of (c : option string) : string :=
  match c with Some s => s | None => EmptyString end.

(** [translate_text(text, target_lang)], given the replies of the OpenAI
    and of the primary endpoint. *)
Definition translate_text (cfg : llm_config) (openai_reply primary_reply : chat_response)
  (text : string) (target_lang : option string) : string :=
  if String.eqb (strip text) EmptyString || negb (truthy target_lang) then text
  else
    let from_reply (r : chat_response) :=
      match r with
      | ChatOk (c :: _) => Some (py_or_str (strip (content_of c)) text)
      | _ => None
      end in
    match (if truthy (openai_api_key cfg) then from_reply openai_reply else None) with
    | Some t => t
    | None =>
        match (if is_enabled cfg then from_reply primary_reply else None) with
        | Some t => t
        | None => text
        end
    end.

Definition newline : ascii := ascii_of_nat 10.

(** Python [s.replace("\n", " ")]. *)
Fixpoint replace_newlines (s : string) : string :=
  match s with
  | EmptyString => EmptyString
  | String c s' => String (if Ascii.eqb c newline then " "%char else c) (replace_newlines s')
  end.

(** Python [sep.join(xs)]. *)
Fixpoint join (sep : string) (xs : list string) : string :=
  match xs with
  | [] => EmptyString
  | [x] => x
  | x :: xs' => String.append x (String.append sep (join sep xs'))
  end.

(** [_fallback_response(documents, language)], given the replies to its
    [translate_text] call. *)
Definition fallback_response (cfg : llm_config) (tr_openai tr_primary : chat_response)
  (documents : list RetrievedChunk) (language : string) : string :=
  let snippets := map (fun chunk => replace_newlines (strip (text chunk))) documents in
  let excerpts := map (String.append "- ")
                      (filter (fun s => negb (String.eqb s EmptyString)) snippets) in
  let base_message :=
    match excerpts with
    | [] => "No supporting knowledge was retrieved to answer the question."%string
    | _ => String.append (String.append "Key findings:" (String newline EmptyString))
             (join (String newline EmptyString) (firstn 3 excerpts))
    end in
  if negb (String.eqb language EmptyString)
     && negb (existsb (String.eqb (lower language)) ["en"; "en-us"; "en-gb"]%string)
  then
    let translated := translate_text cfg tr_openai tr_primary base_message (Some language) in
    if negb (String.eqb (strip translated) EmptyString) then translated else base_message
  else base_message.

(** [_generate_with_openai(...)], given the reply to its request. *)
Definition generate_with_openai (cfg : llm_config) (reply : chat_response)
  : aresult string :=
  if negb (truthy (openai_api_key cfg)) then AOk EmptyString
  else if negb (openai_temperature_valid cfg) then
    ARaise (ValueError "could not convert string to float")
  else
    AOk (match reply with
         | ChatOk (c :: _) => strip (content_of c)
         | _ => EmptyString
         end).

(** [(target_lang or query_lang or "en") or "en"] (line 64). *)
Definition desired_lang_code (target_lang query_lang : option string) : string :=
  match py_or target_lang (py_or query_lang (Some "en"%string)) with
  | Some s => py_or_str s "en"
  | None => "en"
  end.

(** The replies seen by one [generate] call: the primary endpoint, the
    [_generate_with_openai] request, and the two requests of the
    [translate_text] call inside [_fallback_response]. *)
Record llm_replies := {
  primary : chat_response;
  openai_gen : chat_response;
  fallback_openai : chat_response;
  fallback_primary : chat_response
}.

(** [generate(query, query_lang, documents, target_lang)]. *)
Definition generate (cfg : llm_config) (net : llm_replies) (query : string)
  (query_lang : option string) (documents : list RetrievedChunk)
  (target_lang : option string) : aresult (string * option string) :=
  if String.eqb (strip query) EmptyString then AOk (EmptyString, query_lang)
  else
    let code := desired_lang_code target_lang query_lang in
    let fallback :=
      AOk (fallback_response cfg (fallback_openai net) (fallback_primary net) documents code,
           Some code) in
    let try_openai_then_fallback :=
      if truthy (openai_api_key cfg) then
        let+ r := generate_with_openai cfg (openai_gen net) in
        if String.eqb r EmptyString then fallback else AOk (r, Some code)
      else fallback in
    if match documents with [] => truthy (openai_api_key cfg) | _ => false end
    then try_openai_then_fallback
    else if negb (is_enabled cfg) then try_openai_then_fallback
    else if negb (llm_temperature_valid cfg) then
      ARaise (ValueError "could not convert string to float")
    else
      match primary net with
      | ChatOk (c :: _) => AOk (strip (content_of c), Some code)
      | _ => try_openai_then_fallback
      end.

(** Lines 92-110 of [run_query]: the answer text, its language and
    [answer_translated_text], given the replies to the [translate_text]
    request. *)
Definition run_query_answer (cfg : llm_config) (net : llm_replies)
  (tr_openai tr_primary : chat_response) (query : string)
  (query_lang target_lang : option string) (docs : list RetrievedChunk)
  : aresult (string * option string * option string) :=
  let desired_answer_lang := py_or query_lang target_lang in
  let+ ga := generate cfg net query query_lang docs desired_answer_lang in
  let (answer_text, answer_lang) := ga in
  if truthy query_lang && truthy answer_lang
     && negb (opt_str_eqb answer_lang query_lang) then
    let translated := translate_text cfg tr_openai tr_primary answer_text query_lang in
    if negb (String.eqb (strip translated) EmptyString)
    then AOk (translated, query_lang, Some answer_text)
    else AOk (answer_text, answer_lang, None)
  else if truthy target_lang && truthy answer_lang
          && negb (opt_str_eqb target_lang answer_lang) then
    let translated := translate_text cfg tr_openai tr_primary answer_text target_lang in
    if negb (String.eqb (strip translated) EmptyString)
    then AOk (answer_text, answer_lang, Some translated)
    else AOk (answer_text, answer_lang, None)
  else AOk (answer_text, answer_lang, None).

(** ** Concrete inputs of the HTTP layer *)

Definition chunk_with_score (s : R) : RetrievedChunk :=
  {| doc_id := "0"; text := "a"; score := s; language := "en"; highlights := [] |}.

Definition llm_offline : llm_config :=
  {| base_url := None; api_key := None; openai_api_key := None;
     llm_temperature_valid := true; openai_temperature_valid := true |}.

Definition replies_failed : llm_replies :=
  {| primary := ChatFailed; openai_gen := ChatFailed;
     fallback_openai := ChatFailed; fallback_primary := ChatFailed |}.

(** * Properties *)

(** ** The error monad *)

Lemma bind_Ok {A B} (m : result A) (f : A -> result B) (v : B) :
  bind m f = Ok v -> exists a, m = Ok a /\ f a = Ok v.
Proof. destruct m as [a|e]; simpl; [eauto | discriminate]. Qed.

Ltac inv_bind H :=
  let a := fresh "a" in let Ha := fresh "Ha" in
  apply bind_Ok in H; destruct H as [a [Ha H]].

(** ** String order and tokenisation *)

Lemma string_compare_refl (s : string) : String.compare s s = Eq.
Proof.
  induction s as [|c s IH]; simpl; [reflexivity|].
  unfold Ascii.compare. rewrite N.compare_refl. exact IH.
Qed.

Lemma string_lt_trans (x y z : string) :
  String.compare x y = Lt -> String.compare y z = Lt -> String.compare x z = Lt.
Proof.
  revert y z; induction x as [|a x IH]; intros [|c y] [|d z]; simpl;
    try discriminate; auto.
  unfold Ascii.compare.
  destruct (N.compare_spec (N_of_ascii a) (N_of_ascii c)) as [Hac|Hac|Hac];
    try discriminate;
  destruct (N.compare_spec (N_of_ascii c) (N_of_ascii d)) as [Hcd|Hcd|Hcd];
    try discriminate; intros H1 H2;
  destruct (N.compare_spec (N_of_ascii a) (N_of_ascii d)) as [Had|Had|Had];
    try reflexivity; try lia.
  eauto.
Qed.

Definition str_lt (x y : string) : Prop := String.compare x y = Lt.

Lemma split_aux_nonempty (s cur t : string) :
  In t (split_aux s cur) -> t <> EmptyString.
Proof.
  revert cur; induction s as [|c s IH]; intros cur; simpl.
  - destruct cur; simpl; [tauto|]. intros [<-|[]]; discriminate.
  - destruct (is_space c).
    + destruct cur as [|c' cur]; [apply IH|].
      intros [<-|H]; [discriminate | exact (IH _ H)].
    + apply IH.
Qed.

Lemma split_nonempty (s t : string) : In t (split s) -> t <> EmptyString.
Proof. apply split_aux_nonempty. Qed.

Lemma filter_nonempty_split (s : string) :
  filter (fun t => negb (String.eqb t EmptyString)) (split s) = split s.
Proof.
  assert (H := split_nonempty s). induction (split s) as [|t l IH]; [reflexivity|].
  simpl. destruct (String.eqb_spec t EmptyString) as [E|E].
  - exfalso. apply (H t); [left; reflexivity | exact E].
  - simpl. f_equal. apply IH. intros u Hu. apply H. right. exact Hu.
Qed.

Lemma split_empty : split EmptyString = [].
Proof. reflexivity. Qed.

(** ** [sorted(set(...))] *)

Lemma in_insert_uniq (x t : string) (l : list string) :
  In t (insert_uniq x l) <-> t = x \/ In t l.
Proof.
  induction l as [|y l IH]; simpl; [firstorder congruence|].
  destruct (String.compare x y) eqn:E.
  - apply String.compare_eq_iff in E. subst. firstorder congruence.
  - simpl. firstorder congruence.
  - simpl. rewrite IH. firstorder congruence.
Qed.

Lemma insert_uniq_sorted (x : string) (l : list string) :
  StronglySorted str_lt l -> StronglySorted str_lt (insert_uniq x l).
Proof.
  induction l as [|y l IH]; simpl; intros Hs.
  - repeat constructor.
  - apply StronglySorted_inv in Hs as [Hl Hy].
    destruct (String.compare x y) eqn:E.
    + constructor; assumption.
    + constructor; [constructor; assumption|].
      constructor; [exact E|].
      rewrite Forall_forall in *. intros z Hz.
      apply (string_lt_trans _ y); [exact E | apply Hy; exact Hz].
    + constructor; [apply IH; exact Hl|].
      rewrite Forall_forall in *. intros z Hz.
      apply in_insert_uniq in Hz as [->|Hz]; [|apply Hy; exact Hz].
      unfold str_lt. rewrite String.compare_antisym, E. reflexivity.
Qed.

Lemma sorted_set_sorted (l : list string) : StronglySorted str_lt (sorted_set l).
Proof.
  induction l as [|x l IH]; simpl; [constructor|].
  apply insert_uniq_sorted. exact IH.
Qed.

Lemma in_sorted_set (t : string) (l : list string) :
  In t (sorted_set l) <-> In t l.
Proof.
  induction l as [|x l IH]; simpl; [tauto|].
  rewrite in_insert_uniq, IH. split; intros [H|H]; auto.
Qed.

Lemma strict_sorted_NoDup (l : list string) :
  StronglySorted str_lt l -> NoDup l.
Proof.
  induction l as [|x l IH]; intros Hs; [constructor|].
  apply StronglySorted_inv in Hs as [Hl Hx].
  constructor; [|apply IH; exact Hl].
  intros Hin. rewrite Forall_forall in Hx. specialize (Hx x Hin).
  unfold str_lt in Hx. rewrite string_compare_refl in Hx. discriminate.
Qed.

Lemma mem_token_set (w : string) (qs : list string) :
  mem w (token_set qs) = true <->
  exists q, In q qs /\ q <> EmptyString /\ w = lower q.
Proof.
  unfold mem, token_set. rewrite existsb_exists. split.
  - intros [x [Hx Hw]]. apply in_map_iff in Hx as [q [<- Hq]].
    apply filter_In in Hq as [Hq Hne]. apply String.eqb_eq in Hw.
    exists q. split; [exact Hq|]. split; [|exact Hw].
    destruct (String.eqb_spec q EmptyString); [discriminate | assumption].
  - intros [q [Hq [Hne ->]]]. exists (lower q). split; [|apply String.eqb_refl].
    apply in_map. apply filter_In. split; [exact Hq|].
    destruct (String.eqb_spec q EmptyString); [contradiction | reflexivity].
Qed.

Lemma in_highlights_of (qtext doc t : string) :
  In t (highlights_of (split qtext) doc) <->
  In t (split doc) /\ exists q, In q (split qtext) /\ lower t = lower q.
Proof.
  unfold highlights_of. rewrite filter_nonempty_split, in_sorted_set, filter_In.
  rewrite mem_token_set. split.
  - intros [Ht [q [Hq [_ E]]]]. split; [exact Ht|]. exists q. auto.
  - intros [Ht [q [Hq E]]]. split; [exact Ht|]. exists q.
    split; [exact Hq|]. split; [exact (split_nonempty _ _ Hq) | exact E].
Qed.

(** ** The stable descending sort *)

Section RankProps.
Variable key : nat -> R.

(** [i] is placed before [j] by a stable descending sort of an increasing
    list of indices. *)
Definition ranks_before (i j : nat) : Prop :=
  (key j < key i)%R \/ (key j = key i /\ i < j).

Lemma ranks_before_intro (i j : nat) :
  (key j <= key i)%R -> i < j -> ranks_before i j.
Proof.
  intros Hk Hij. unfold ranks_before.
  destruct (Rle_lt_or_eq_dec _ _ Hk); [left | right]; auto.
Qed.

Lemma in_insert_desc (x y : nat) (l : list nat) :
  In y (insert_desc key x l) <-> y = x \/ In y l.
Proof.
  induction l as [|z l IH]; simpl; [firstorder congruence|].
  destruct (Rle_dec (key z) (key x)); simpl; [|rewrite IH]; firstorder congruence.
Qed.

Lemma insert_desc_perm (x : nat) (l : list nat) :
  Permutation (insert_desc key x l) (x :: l).
Proof.
  induction l as [|z l IH]; simpl; [reflexivity|].
  destruct (Rle_dec (key z) (key x)); [reflexivity|].
  rewrite IH. apply perm_swap.
Qed.

Lemma sort_desc_perm (l : list nat) : Permutation (sort_desc key l) l.
Proof.
  induction l as [|x l IH]; simpl; [reflexivity|].
  rewrite insert_desc_perm. apply perm_skip. exact IH.
Qed.

Lemma insert_desc_sorted (x : nat) (s : list nat) :
  StronglySorted ranks_before s -> (forall y, In y s -> x < y) ->
  StronglySorted ranks_before (insert_desc key x s).
Proof.
  induction s as [|y s IH]; simpl; intros Hs Hlt.
  - repeat constructor.
  - apply StronglySorted_inv in Hs as [Hs Hy]. rewrite Forall_forall in Hy.
    destruct (Rle_dec (key y) (key x)) as [Hle|Hgt].
    + constructor; [constructor; [exact Hs | rewrite Forall_forall; exact Hy]|].
      rewrite Forall_forall. intros z Hz.
      apply ranks_before_intro; [|apply Hlt; exact Hz].
      destruct Hz as [<-|Hz]; [exact Hle|].
      destruct (Hy z Hz) as [H|[H _]]; lra.
    + constructor; [apply IH; [exact Hs | intros; apply Hlt; right; assumption]|].
      rewrite Forall_forall. intros z Hz. apply in_insert_desc in Hz as [->|Hz].
      * left. lra.
      * apply Hy. exact Hz.
Qed.

Lemma sort_desc_sorted (l : list nat) :
  StronglySorted lt l -> StronglySorted ranks_before (sort_desc key l).
Proof.
  induction l as [|x l IH]; simpl; intros Hs; [constructor|].
  apply StronglySorted_inv in Hs as [Hs Hx]. rewrite Forall_forall in Hx.
  apply insert_desc_sorted; [apply IH; exact Hs|].
  intros y Hy. apply Hx. apply (Permutation_in _ (sort_desc_perm l)). exact Hy.
Qed.
End RankProps.

Lemma seq_strongly_sorted (s n : nat) : StronglySorted lt (seq s n).
Proof.
  revert s; induction n as [|n IH]; intros s; simpl; constructor; [apply IH|].
  rewrite Forall_forall. intros y Hy. apply in_seq in Hy. lia.
Qed.

Lemma StronglySorted_in_impl {A} (R R' : A -> A -> Prop) (l : list A) :
  StronglySorted R l -> (forall x y, In x l -> In y l -> R x y -> R' x y) ->
  StronglySorted R' l.
Proof.
  induction l as [|x l IH]; intros Hs Himp; [constructor|].
  apply StronglySorted_inv in Hs as [Hs Hx]. constructor.
  - apply IH; [exact Hs|]. intros a c Ha Hc. apply Himp; right; assumption.
  - rewrite Forall_forall in *. intros y Hy. apply Himp;
      [left; reflexivity | right; exact Hy | apply Hx; exact Hy].
Qed.

Lemma StronglySorted_firstn {A} (R : A -> A -> Prop) (m : nat) (l : list A) :
  StronglySorted R l -> StronglySorted R (firstn m l).
Proof.
  revert l; induction m as [|m IH]; intros [|x l] Hs; simpl; try constructor.
  - apply StronglySorted_inv in Hs as [Hs _]. apply IH. exact Hs.
  - apply StronglySorted_inv in Hs as [_ Hx]. rewrite Forall_forall in *.
    intros y Hy. apply Hx. rewrite <- (firstn_skipn m l). apply in_or_app. left. exact Hy.
Qed.

Lemma StronglySorted_prefix_before {A} (R : A -> A -> Prop) (m : nat) (l : list A) i j :
  StronglySorted R l -> In i (firstn m l) -> In j l -> ~ In j (firstn m l) -> R i j.
Proof.
  revert l; induction m as [|m IH]; intros [|x l] Hs Hi Hj Hnj; simpl in *;
    try contradiction.
  apply StronglySorted_inv in Hs as [Hs Hx]. rewrite Forall_forall in Hx.
  destruct Hj as [<-|Hj]; [exfalso; apply Hnj; left; reflexivity|].
  destruct Hi as [<-|Hi]; [apply Hx; exact Hj|].
  apply (IH l); auto.
Qed.

Lemma py_slice_upto_firstn {A} (xs : list A) (k : Z) :
  exists m, py_slice_upto xs k = firstn m xs.
Proof. unfold py_slice_upto. destruct (0 <=? k)%Z; eauto. Qed.

Lemma py_slice_upto_nonneg {A} (xs : list A) (k : Z) :
  (0 <= k)%Z -> py_slice_upto xs k = firstn (Z.to_nat k) xs.
Proof. intros Hk. unfold py_slice_upto. apply Z.leb_le in Hk. rewrite Hk. reflexivity. Qed.

Lemma NoDup_firstn_of {A} (m : nat) (l : list A) : NoDup l -> NoDup (firstn m l).
Proof.
  intros H. rewrite <- (firstn_skipn m l) in H. eapply NoDup_app_remove_r. exact H.
Qed.

(** ** Ranking keys and the shape of a query's result *)

Lemma py_get_Ok (xs : list R) (i : nat) (v : R) :
  py_get xs i = Ok v -> v = nth i xs 0%R /\ i < length xs.
Proof.
  unfold py_get. destruct (nth_error xs i) eqn:E; intros H; inversion H; subst.
  split; [symmetry; apply nth_error_nth; exact E|].
  apply nth_error_Some. congruence.
Qed.

Lemma fused_keys_map_aux (bm emb : list R) (l : list nat) (keys : list R) :
  mapM (fun idx => let* l := py_get bm idx in
                   let* s := py_get emb idx in Ok (fused l s)) l = Ok keys ->
  keys = map (fun i => fused (nth i bm 0%R) (nth i emb 0%R)) l.
Proof.
  revert keys; induction l as [|i l IH]; intros keys H; simpl in H.
  - inversion H. reflexivity.
  - inv_bind H. inv_bind Ha. inv_bind Ha. inversion Ha; subst.
    apply py_get_Ok in Ha0 as [-> _]. apply py_get_Ok in Ha1 as [-> _].
    inv_bind H. inversion H; subst. simpl. f_equal. apply IH. exact Ha0.
Qed.

Lemma fused_keys_map (bm emb : list R) (n : nat) (keys : list R) :
  fused_keys bm emb n = Ok keys ->
  keys = map (fun i => fused (nth i bm 0%R) (nth i emb 0%R)) (seq 0 n).
Proof. apply fused_keys_map_aux. Qed.

Lemma sort_desc_length (key : nat -> R) (l : list nat) :
  length (sort_desc key l) = length l.
Proof. apply Permutation_length. apply sort_desc_perm. Qed.

Lemma nth_map_seq_lt (f : nat -> R) (n i : nat) :
  i < n -> nth i (map f (seq 0 n)) 0%R = f i.
Proof.
  intros Hi. rewrite (nth_indep _ 0%R (f 0)) by (rewrite length_map, length_seq; exact Hi).
  rewrite map_nth, seq_nth by exact Hi. reflexivity.
Qed.

Section QueryShape.
Variable detect : string -> option string.

Lemma query_Ok_inv (st : RAGEngine) (qtext : string) (k : Z) res :
  query detect st qtext k = Ok res ->
  (res = [] /\ (corpus st = [] \/ bm25 st = None)) \/
  exists m emb keys,
    corpus st <> [] /\ bm25 st = Some m /\
    embedding_scores_of st qtext = Ok emb /\
    fused_keys (get_scores m (split qtext)) emb (length (corpus st)) = Ok keys /\
    res = map (make_chunk detect st (split qtext) (get_scores m (split qtext)))
            (py_slice_upto (sort_desc (fun idx => nth idx keys 0%R)
                                      (seq 0 (length (corpus st)))) k).
Proof.
  unfold query. destruct (corpus st) as [|d ds] eqn:Ec.
  - intros H. inversion H. left. auto.
  - destruct (bm25 st) as [m|] eqn:Eb.
    + intros H. rewrite <- Ec in H. inv_bind H. inv_bind H. inversion H; subst.
      right. exists m, a, a0. rewrite <- Ec.
      split; [rewrite Ec; discriminate|]. split; [reflexivity|].
      split; [exact Ha|]. split; [exact Ha0 | reflexivity].
    + intros H. inversion H. left. auto.
Qed.

Lemma query_result_chunk (st : RAGEngine) (qtext : string) (k : Z) res r :
  query detect st qtext k = Ok res -> In r res ->
  exists m idx, bm25 st = Some m /\ idx < length (corpus st) /\
    r = make_chunk detect st (split qtext) (get_scores m (split qtext)) idx.
Proof.
  intros H Hr. apply query_Ok_inv in H as [[-> _]|[m [emb [keys [_ [Hm [_ [_ ->]]]]]]]];
    [destruct Hr|].
  apply in_map_iff in Hr as [idx [<- Hidx]]. exists m, idx. split; [exact Hm|].
  split; [|reflexivity].
  destruct (py_slice_upto_firstn (sort_desc (fun idx => nth idx keys 0%R)
              (seq 0 (length (corpus st)))) k) as [p Hp].
  rewrite Hp in Hidx.
  assert (Hin : In idx (sort_desc (fun idx => nth idx keys 0%R) (seq 0 (length (corpus st)))))
    by (rewrite <- (firstn_skipn p); apply in_or_app; left; exact Hidx).
  apply (Permutation_in _ (sort_desc_perm _ _)) in Hin. apply in_seq in Hin. lia.
Qed.
End QueryShape.

(** ** Cosine similarity *)

Lemma sum_sq_acc_nonneg (v : list R) (a : R) :
  (0 <= a)%R -> (0 <= fold_left (fun acc x => acc + x * x) v a)%R.
Proof.
  revert a; induction v as [|x v IH]; intros a Ha; simpl; [exact Ha|].
  apply IH. pose proof (Rle_0_sqr x). unfold Rsqr in *. lra.
Qed.

Lemma sum_sq_acc_zero (v : list R) (a : R) :
  (0 <= a)%R -> fold_left (fun acc x => acc + x * x)%R v a = 0%R ->
  a = 0%R /\ Forall (fun x => x = 0%R) v.
Proof.
  revert a; induction v as [|x v IH]; intros a Ha H; simpl in H.
  - split; [exact H | constructor].
  - pose proof (Rle_0_sqr x) as Hx. unfold Rsqr in Hx.
    destruct (IH (a + x * x)%R ltac:(lra) H) as [H0 Hv].
    assert (Hxx : (x * x = 0)%R) by lra.
    split; [lra|]. constructor; [|exact Hv].
    destruct (Rmult_integral _ _ Hxx); assumption.
Qed.

Lemma norm_zero_all_zero (v : list R) :
  sqrt (sum_sq v) = 0%R -> Forall (fun x => x = 0%R) v.
Proof.
  intros H. apply sqrt_eq_0 in H; [|apply sum_sq_acc_nonneg; lra].
  apply (sum_sq_acc_zero v 0%R); [lra | exact H].
Qed.

Lemma dot_acc_zero_left (qv dv : list R) (a : R) :
  Forall (fun x => x = 0%R) qv ->
  fold_left (fun acc p => acc + fst p * snd p)%R (combine qv dv) a = a.
Proof.
  intros Hq. revert a dv.
  induction Hq as [|x qv Hx Hq IH]; intros a dv; simpl.
  - reflexivity.
  - destruct dv as [|d dv]; simpl; [reflexivity|].
    rewrite IH. subst. ring.
Qed.

Lemma dot_zero_left (qv dv : list R) :
  Forall (fun x => x = 0%R) qv -> dot qv dv = 0%R.
Proof. intros Hq. apply dot_acc_zero_left. exact Hq. Qed.

Lemma norm_query_of_nonzero (qv : list R) : norm_query_of qv <> 0%R.
Proof.
  unfold norm_query_of. destruct (Req_EM_T (sqrt (sum_sq qv)) 0); [lra | assumption].
Qed.

Lemma py_set_Ok (xs : list R) (i : nat) (v : R) :
  i < length xs ->
  exists ys, py_set xs i v = Ok ys /\ length ys = length xs /\
    forall j, nth j ys 0%R = if j =? i then v else nth j xs 0%R.
Proof.
  intros Hi. unfold py_set. apply Nat.ltb_lt in Hi as Hb. rewrite Hb.
  eexists. split; [reflexivity|]. apply Nat.ltb_lt in Hb.
  rewrite length_app, length_firstn, Nat.min_l by lia.
  change (length (v :: skipn (S i) xs)) with (S (length (skipn (S i) xs))).
  rewrite length_skipn.
  split; [lia|]. intros j.
  destruct (Nat.compare_spec j i) as [->|Hj|Hj].
  - rewrite Nat.eqb_refl, app_nth2 by (rewrite length_firstn; lia).
    rewrite length_firstn, Nat.min_l, Nat.sub_diag by lia. reflexivity.
  - assert (j <> i) as Hne by lia. apply Nat.eqb_neq in Hne. rewrite Hne.
    rewrite app_nth1 by (rewrite length_firstn; lia). rewrite nth_firstn.
    apply Nat.ltb_lt in Hj. rewrite Hj. reflexivity.
  - assert (j <> i) as Hne by lia. apply Nat.eqb_neq in Hne. rewrite Hne.
    rewrite app_nth2 by (rewrite length_firstn; lia).
    rewrite length_firstn, Nat.min_l by lia.
    destruct (j - i) as [|d] eqn:E; [lia|]. cbn [nth]. rewrite nth_skipn.
    f_equal. lia.
Qed.

Lemma cosine_loop_spec (qv : list R) (docs : list (list R)) :
  forall i scores, i + length docs <= length scores ->
  exists s', cosine_loop qv i docs scores = Ok s' /\
    length s' = length scores /\
    (forall j, j < i \/ i + length docs <= j -> nth j s' 0%R = nth j scores 0%R) /\
    (forall k dv, nth_error docs k = Some dv ->
       nth (i + k) s' 0%R =
       if Req_EM_T (sqrt (sum_sq dv)) 0 then nth (i + k) scores 0%R
       else (dot qv dv / (norm_query_of qv * sqrt (sum_sq dv)))%R).
Proof.
  induction docs as [|dv docs IH]; intros i scores Hlen; simpl in *.
  - exists scores. split; [reflexivity|]. split; [reflexivity|].
    split; [reflexivity|]. intros [|k] dv H; discriminate.
  - destruct (Req_EM_T (sqrt (sum_sq dv)) 0) as [Hz|Hz].
    + destruct (IH (S i) scores ltac:(lia)) as [s' [Hs' [Hl [Hout Hin]]]].
      exists s'. split; [exact Hs'|]. split; [exact Hl|].
      split; [intros j Hj; apply Hout; lia|].
      intros [|k] dv' Hk; simpl in Hk.
      * inversion Hk; subst. rewrite Nat.add_0_r.
        destruct (Req_EM_T _ 0); [|contradiction]. apply Hout. lia.
      * rewrite <- Nat.add_succ_comm. apply Hin. exact Hk.
    + destruct (py_set_Ok scores i (dot qv dv / (norm_query_of qv * sqrt (sum_sq dv)))%R
                  ltac:(lia)) as [s1 [Hs1 [Hl1 Hn1]]].
      rewrite Hs1. simpl.
      destruct (IH (S i) s1 ltac:(lia)) as [s' [Hs' [Hl [Hout Hin]]]].
      exists s'. split; [exact Hs'|]. split; [lia|].
      split.
      { intros j Hj. rewrite Hout by lia. rewrite Hn1.
        destruct (Nat.eqb_spec j i); [lia | reflexivity]. }
      intros [|k] dv' Hk; simpl in Hk.
      * inversion Hk; subst. rewrite Nat.add_0_r.
        destruct (Req_EM_T _ 0); [contradiction|].
        rewrite Hout by lia. rewrite Hn1, Nat.eqb_refl. reflexivity.
      * rewrite <- Nat.add_succ_comm, (Hin k dv' Hk).
        destruct (Req_EM_T _ 0); [|reflexivity].
        rewrite Hn1. destruct (Nat.eqb_spec (S i + k) i); [lia | reflexivity].
Qed.

(** ** Engine invariants *)

Lemma BM25Okapi_init_Ok (c : list (list string)) (m : BM25Okapi) :
  BM25Okapi_init c = Ok m -> doc_freqs m = c /\ corpus_size m = length c.
Proof.
  unfold BM25Okapi_init. destruct (length c =? 0); [discriminate|].
  destruct (length _ =? 0); [discriminate|]. intros H. inversion H. auto.
Qed.

Lemma reachable_no_encoder (st : RAGEngine) :
  reachable st -> embedder st = None -> doc_embeddings st = [].
Proof.
  induction 1 as [fm c st H|st docs Hr IH].
  - unfold RAGEngine_init in H. inv_bind H. inv_bind H. inversion H; subst.
    simpl. intros ->. destruct c; inversion Ha0; reflexivity.
  - unfold index. destruct (BM25Okapi_init _); simpl; [|exact IH].
    destruct (embedder st) as [e|]; simpl; [|exact IH].
    destruct (encode e _); simpl; [discriminate | exact IH].
Qed.

(** * Claims *)

(** ** Return value of [index] *)

(** C4 (amended): [index(documents)] returns [None], never a count; the
    corpus it leaves behind is the old corpus followed by [documents], so it
    grows by exactly [len(documents)] (also when the call raises). *)
Theorem index_returns_none (st : RAGEngine) (docs : list string) :
  (snd (index st docs) = Ok PyNone \/ exists e, snd (index st docs) = Raise e) /\
  corpus (fst (index st docs)) = corpus st ++ docs.
Proof.
  unfold index. destruct (BM25Okapi_init _); simpl; [|eauto].
  destruct (embedder st) as [e|]; simpl; [|auto].
  destruct (encode e _); simpl; eauto.
Qed.

(** C4 (counterexample): indexing one document returns [None], not 1. *)
Lemma index_returns_no_count :
  snd (index engine_empty ["a"%string]) = Ok PyNone /\
  snd (index engine_empty ["a"%string]) <> Ok (PyInt 1).
Proof. split; [reflexivity | discriminate]. Qed.

(** ** Exceptions from [index] *)

(** C6 (code bug): the constructor guards an empty tokenised corpus, but
    [index] does not: on a fresh engine, [index([])] and [index([""])] raise
    [ZeroDivisionError] inside [BM25Okapi]. *)
Theorem index_empty_batch_raises :
  RAGEngine_init None [] = Ok engine_empty /\
  snd (index engine_empty []) = Raise ZeroDivisionError /\
  snd (index engine_empty [""%string]) = Raise ZeroDivisionError.
Proof. repeat split; reflexivity. Qed.

(** ** Highlights *)

(** C7: the highlights of every returned document are its whitespace-split
    tokens whose lowercase form equals the lowercase form of a query token,
    without duplicates, in ascending lexicographic order; an empty query or
    an empty document gives no highlights. *)
Theorem query_highlights_exact (detect : string -> option string)
  (st : RAGEngine) (qtext : string) (k : Z) res r :
  query detect st qtext k = Ok res -> In r res ->
  StronglySorted str_lt (highlights r) /\ NoDup (highlights r) /\
  (forall t, In t (highlights r) <->
     In t (split (text r)) /\ exists q, In q (split qtext) /\ lower t = lower q) /\
  (qtext = EmptyString -> highlights r = []) /\
  (text r = EmptyString -> highlights r = []).
Proof.
  intros H Hr. destruct (query_result_chunk detect st qtext k res r H Hr)
    as [m [idx [_ [_ ->]]]].
  unfold make_chunk; simpl.
  set (doc := nth idx (corpus st) EmptyString).
  assert (Hs : StronglySorted str_lt (highlights_of (split qtext) doc))
    by (unfold highlights_of; apply sorted_set_sorted).
  split; [exact Hs|]. split; [apply strict_sorted_NoDup; exact Hs|].
  split; [intros t; apply in_highlights_of|].
  split; intros E; destruct (highlights_of (split qtext) doc) as [|t l] eqn:Eh;
    try reflexivity; exfalso;
    assert (Ht : In t (highlights_of (split qtext) doc)) by (rewrite Eh; left; reflexivity);
    apply in_highlights_of in Ht as [Ht [q [Hq _]]].
  - rewrite E in Hq. destruct Hq.
  - rewrite E in Ht. destruct Ht.
Qed.

(** ** The [score] field *)

(** C1 (amended): the [score] of every returned result is the raw BM25
    score [bm25_scores[idx]] of its document; the fused score only orders
    the results. *)
Theorem query_score_is_lexical (detect : string -> option string)
  (st : RAGEngine) (qtext : string) (k : Z) res r :
  query detect st qtext k = Ok res -> In r res ->
  exists m idx, bm25 st = Some m /\ idx < length (corpus st) /\
    doc_id r = str_of_nat idx /\ text r = nth idx (corpus st) EmptyString /\
    score r = nth idx (get_scores m (split qtext)) 0%R.
Proof.
  intros H Hr. destruct (query_result_chunk detect st qtext k res r H Hr)
    as [m [idx [Hm [Hidx ->]]]].
  exists m, idx. repeat split; assumption.
Qed.

(** C1 (counterexample): with no encoder, the one-document corpus ["a"]
    queried with "a" returns a result whose score is the BM25 score L of
    the document, and L <> 0.6 * L + 0.4 * 0 because L <> 0 (its term has
    a negative idf, replaced by epsilon times the average idf). *)
Lemma query_score_not_fused :
  exists m res r, bm25 engine_a = Some m /\
    embedding_scores_of engine_a "a"%string = Ok [0%R] /\
    query no_detect engine_a "a"%string 1 = Ok res /\ In r res /\
    doc_id r = "0"%string /\
    score r <> fused (nth 0 (get_scores m (split "a"%string)) 0%R) 0%R.
Proof.
  do 3 eexists. split; [reflexivity|]. split; [reflexivity|].
  split; [reflexivity|]. split; [left; reflexivity|]. split; [reflexivity|].
  cbv -[Rlt_dec Rplus Rmult Rminus Rdiv Rinv Ropp ln IZR INR Rlt].
  change (INR 1) with 1%R.
  set (x := (ln (1 - 1 + 5 * / 10) - ln (1 + 5 * / 10))%R).
  assert (Hx : (x < 0)%R).
  { unfold x. assert (ln (1 - 1 + 5 * / 10) < ln (1 + 5 * / 10))%R
      by (apply ln_increasing; lra). lra. }
  destruct (Rlt_dec x 0) as [_|C]; [|lra].
  replace (1 * (15 * / 10 + 1) /
           (1 + 15 * / 10 * (1 - 75 * / 100 + 75 * / 100 * 1 / (1 / 1))))%R
    with 1%R by field.
  replace ((0 + x) / 1)%R with x by field.
  lra.
Qed.

Lemma query_score_is_lexical_witness :
  exists res r, query no_detect engine_a "a"%string 1 = Ok res /\ In r res /\
    exists m idx, bm25 engine_a = Some m /\ idx < length (corpus engine_a) /\
      doc_id r = str_of_nat idx /\ text r = nth idx (corpus engine_a) EmptyString /\
      score r = nth idx (get_scores m (split "a"%string)) 0%R.
Proof.
  do 2 eexists. split; [reflexivity|]. split; [left; reflexivity|].
  eapply (query_score_is_lexical no_detect engine_a "a"%string 1);
    [reflexivity | left; reflexivity].
Defined.

Lemma query_highlights_exact_witness :
  exists res r, query no_detect engine_a "a"%string 1 = Ok res /\ In r res /\
    StronglySorted str_lt (highlights r) /\ NoDup (highlights r) /\
    (forall t, In t (highlights r) <->
       In t (split (text r)) /\
       exists q, In q (split "a"%string) /\ lower t = lower q) /\
    ("a"%string = EmptyString -> highlights r = []) /\
    (text r = EmptyString -> highlights r = []).
Proof.
  do 2 eexists. split; [reflexivity|]. split; [left; reflexivity|].
  eapply (query_highlights_exact no_detect engine_a "a"%string 1);
    [reflexivity | left; reflexivity].
Defined.

(** ** Ranking and truncation *)

(** C5: the returned documents are a prefix of the ranking of all document
    indices by decreasing fused score 0.6 * lexical + 0.4 * semantic: along
    the result the fused score does not increase and equal scores keep
    ascending [doc_id]; every document left out ranks after every document
    returned. *)
Theorem query_rank_order (detect : string -> option string)
  (st : RAGEngine) (qtext : string) (k : Z) res :
  query detect st qtext k = Ok res ->
  (res = [] /\ (corpus st = [] \/ bm25 st = None)) \/
  exists m emb idxs,
    let key := fun i => fused (nth i (get_scores m (split qtext)) 0%R)
                              (nth i emb 0%R) in
    bm25 st = Some m /\ embedding_scores_of st qtext = Ok emb /\
    map doc_id res = map str_of_nat idxs /\
    NoDup idxs /\ (forall i, In i idxs -> i < length (corpus st)) /\
    StronglySorted (ranks_before key) idxs /\
    (forall i j, In i idxs -> j < length (corpus st) -> ~ In j idxs ->
                 ranks_before key i j).
Proof.
  intros H. apply query_Ok_inv in H as [H|[m [emb [keys [_ [Hm [He [Hk ->]]]]]]]];
    [left; exact H|right].
  apply fused_keys_map in Hk.
  set (n := length (corpus st)) in *.
  set (key := fun i => fused (nth i (get_scores m (split qtext)) 0%R) (nth i emb 0%R)).
  set (sorted := sort_desc (fun idx => nth idx keys 0%R) (seq 0 n)).
  destruct (py_slice_upto_firstn sorted k) as [p Hp].
  exists m, emb, (firstn p sorted). cbv zeta.
  assert (Hkey : forall i, i < n -> nth i keys 0%R = key i)
    by (intros i Hi; rewrite Hk; apply nth_map_seq_lt; exact Hi).
  assert (Hsn : forall i, In i sorted -> i < n).
  { intros i Hi. apply (Permutation_in _ (sort_desc_perm _ _)) in Hi.
    apply in_seq in Hi. lia. }
  assert (Hpn : forall i, In i (firstn p sorted) -> i < n).
  { intros i Hi. apply Hsn. rewrite <- (firstn_skipn p sorted).
    apply in_or_app. left. exact Hi. }
  assert (Hss : StronglySorted (ranks_before (fun idx => nth idx keys 0%R)) sorted)
    by (apply sort_desc_sorted, seq_strongly_sorted).
  assert (Htr : forall i j, i < n -> j < n ->
            ranks_before (fun idx => nth idx keys 0%R) i j -> ranks_before key i j).
  { intros i j Hi Hj. unfold ranks_before. rewrite !Hkey by assumption. tauto. }
  split; [exact Hm|]. split; [exact He|].
  split; [rewrite Hp, map_map; reflexivity|].
  split.
  { apply NoDup_firstn_of. eapply Permutation_NoDup;
      [symmetry; apply sort_desc_perm | apply seq_NoDup]. }
  split; [exact Hpn|].
  split.
  { apply StronglySorted_in_impl with (R := ranks_before (fun idx => nth idx keys 0%R)).
    - apply StronglySorted_firstn. exact Hss.
    - intros i j Hi Hj. apply Htr; apply Hpn; assumption. }
  intros i j Hi Hj Hnj. apply Htr; [apply Hpn; exact Hi | exact Hj|].
  apply (StronglySorted_prefix_before _ p sorted); try assumption.
  apply (Permutation_in _ (Permutation_sym (sort_desc_perm _ _))).
  apply in_seq. lia.
Qed.

(** C10: on an indexed non-empty corpus and [top_k >= 1], a query that
    returns gives exactly min(top_k, corpus size) results, whatever the
    query text: no zero-score document is filtered out. *)
Theorem query_returns_min_topk (detect : string -> option string)
  (st : RAGEngine) (qtext : string) (k : Z) res m :
  bm25 st = Some m -> corpus st <> [] -> (1 <= k)%Z ->
  query detect st qtext k = Ok res ->
  length res = Nat.min (Z.to_nat k) (length (corpus st)).
Proof.
  intros Hm Hc Hk H.
  apply query_Ok_inv in H as [[_ [H|H]]|[m' [emb [keys [_ [_ [_ [_ ->]]]]]]]];
    try congruence.
  rewrite length_map, py_slice_upto_nonneg by lia.
  rewrite length_firstn, sort_desc_length, length_seq. reflexivity.
Qed.

(** C2 (code bug): with [top_k = -1] the slice [[:top_k]] drops only the
    last ranked document, so a two-document corpus yields one result
    instead of none. *)
Theorem query_negative_topk_nonempty :
  exists res, query no_detect engine_ab EmptyString (-1) = Ok res /\ length res = 1.
Proof.
  eexists. split; [reflexivity|].
  rewrite length_map. unfold py_slice_upto. change ((0 <=? -1)%Z) with false.
  cbv iota. rewrite length_firstn, sort_desc_length. reflexivity.
Qed.

(** On ["b"; "a"; "b"] the query "a" ranks document 1 first (the only
    match), then the tied documents 0 and 2 in ascending order. *)
Lemma query_bab_ranking :
  exists res, query no_detect engine_bab "a"%string 3 = Ok res /\
    map doc_id res = ["1"; "0"; "2"]%string.
Proof.
  unfold query, engine_bab.
  cbv -[Rle_dec Rlt_dec Rplus Rmult Rminus Rdiv Rinv Ropp ln IZR INR Rlt Rle str_of_nat].
  change (INR 0) with 0%R. change (INR 1) with 1%R.
  replace (INR 2) with 2%R by (simpl; lra). replace (INR 3) with 3%R by (simpl; lra).
  set (ia := (ln (3 - 1 + 5 * / 10) - ln (1 + 5 * / 10))%R).
  assert (Hia : (0 < ia)%R).
  { unfold ia. assert (ln (1 + 5 * / 10) < ln (3 - 1 + 5 * / 10))%R
      by (apply ln_increasing; lra). lra. }
  destruct (Rlt_dec ia 0) as [C|_]; [lra|].
  replace (75 * / 100 * 1 / (3 / 3))%R with (75 * / 100)%R by field.
  set (w := (1 * (15 * / 10 + 1) / (1 + 15 * / 10 * (1 - 75 * / 100 + 75 * / 100)))%R).
  assert (Hw : (0 < w)%R) by (unfold w; apply Rdiv_lt_0_compat; lra).
  replace (0 * (15 * / 10 + 1) / (0 + 15 * / 10 * (1 - 75 * / 100 + 75 * / 100)))%R
    with 0%R by field.
  assert (Hp : (0 < ia * w)%R) by (apply Rmult_lt_0_compat; assumption).
  repeat match goal with |- context [Rle_dec ?x ?y] => destruct (Rle_dec x y) end;
    try (eexists; split; reflexivity); exfalso; nra.
Qed.

Lemma query_rank_order_witness :
  exists res, query no_detect engine_bab "a"%string 3 = Ok res /\
  map doc_id res = ["1"; "0"; "2"]%string /\
  ((res = [] /\ (corpus engine_bab = [] \/ bm25 engine_bab = None)) \/
   exists m emb idxs,
     let key := fun i => fused (nth i (get_scores m (split "a"%string)) 0%R)
                               (nth i emb 0%R) in
     bm25 engine_bab = Some m /\ embedding_scores_of engine_bab "a"%string = Ok emb /\
     map doc_id res = map str_of_nat idxs /\
     NoDup idxs /\ (forall i, In i idxs -> i < length (corpus engine_bab)) /\
     StronglySorted (ranks_before key) idxs /\
     (forall i j, In i idxs -> j < length (corpus engine_bab) -> ~ In j idxs ->
                  ranks_before key i j)).
Proof.
  destruct query_bab_ranking as [res [Hq Hd]].
  exists res. split; [exact Hq|]. split; [exact Hd|].
  apply (query_rank_order no_detect engine_bab "a"%string 3 res). exact Hq.
Defined.

Lemma query_returns_min_topk_witness :
  exists m res, bm25 engine_a = Some m /\
    query no_detect engine_a "zzz"%string 1 = Ok res /\ length res = 1.
Proof.
  do 2 eexists. split; [reflexivity|]. split; [reflexivity|].
  eapply (query_returns_min_topk no_detect engine_a "zzz"%string 1);
    [reflexivity | discriminate | lia | reflexivity].
Defined.

(** ** Encoder failures *)

(** C3 (amended): when an encoder is configured and document embeddings
    exist, a failing [encode([text])] call propagates out of [query]: the
    query raises instead of returning a list. *)
Theorem query_encoder_failure_raises (detect : string -> option string)
  (st : RAGEngine) (qtext : string) (k : Z) (e : encoder) :
  embedder st = Some e -> doc_embeddings st <> [] ->
  corpus st <> [] -> bm25 st <> None -> e [qtext] = None ->
  query detect st qtext k = Raise EncodeError.
Proof.
  intros He Hd Hc Hb Hq. unfold query.
  destruct (corpus st) as [|d ds] eqn:Ec; [contradiction|].
  destruct (bm25 st) as [m|]; [|contradiction].
  unfold embedding_scores_of, query_vector_of. rewrite He.
  destruct (doc_embeddings st) as [|v vs]; [contradiction|].
  unfold encode. rewrite Hq. reflexivity.
Qed.

(** C3 (counterexample): an engine whose encoder indexed ["a"; "b"] but
    fails on the single query text raises [EncodeError] from [query]. *)
Lemma query_encoder_failure_propagates :
  snd (index (engine_with flaky_encoder) ["a"; "b"]%string) = Ok PyNone /\
  query no_detect engine_flaky "a"%string 1 = Raise EncodeError.
Proof. split; reflexivity. Qed.

Lemma query_encoder_failure_raises_witness :
  embedder engine_flaky = Some flaky_encoder /\
  query no_detect engine_flaky "a"%string 1 = Raise EncodeError.
Proof.
  split; [reflexivity|].
  apply (query_encoder_failure_raises no_detect engine_flaky "a"%string 1 flaky_encoder);
    [reflexivity | discriminate | discriminate | discriminate | reflexivity].
Defined.

(** ** Semantic similarity *)

(** C8: with a query vector, the semantic score of each document that has
    an embedding is the cosine similarity of the specification (0 when
    either vector has norm 0); the computation returns normally, and each
    division it performs has a non-zero denominator. *)
Theorem semantic_similarity_cosine (st : RAGEngine) (qtext : string) (qv : list R) :
  query_vector_of st qtext = Ok (Some qv) ->
  length (doc_embeddings st) <= length (corpus st) ->
  exists emb, embedding_scores_of st qtext = Ok emb /\
    length emb = length (corpus st) /\
    (forall idx dv, nth_error (doc_embeddings st) idx = Some dv ->
       nth idx emb 0%R = cosine_similarity_spec qv dv) /\
    (forall dv, sqrt (sum_sq dv) <> 0%R ->
       (norm_query_of qv * sqrt (sum_sq dv) <> 0)%R).
Proof.
  intros Hqv Hlen.
  assert (Hden : forall dv, sqrt (sum_sq dv) <> 0%R ->
            (norm_query_of qv * sqrt (sum_sq dv) <> 0)%R).
  { intros dv Hd. apply Rmult_integral_contrapositive_currified;
      [apply norm_query_of_nonzero | exact Hd]. }
  unfold embedding_scores_of. rewrite Hqv. simpl.
  set (zeros := repeat 0%R (length (corpus st))).
  assert (Hz : forall j, nth j zeros 0%R = 0%R).
  { intros j. unfold zeros. destruct (Nat.lt_ge_cases j (length (corpus st))).
    - apply nth_repeat_lt. exact H.
    - apply nth_overflow. rewrite repeat_length. exact H. }
  destruct qv as [|x qv'].
  - exists zeros. split; [reflexivity|]. split; [apply repeat_length|].
    split; [|exact Hden].
    intros idx dv _. rewrite Hz. unfold cosine_similarity_spec, sum_sq. simpl.
    rewrite sqrt_0. destruct (Req_EM_T 0 0); [reflexivity | contradiction].
  - destruct (cosine_loop_spec (x :: qv') (doc_embeddings st) 0 zeros)
      as [s' [Hs' [Hl [_ Hin]]]]; [unfold zeros; rewrite repeat_length; lia|].
    exists s'. split; [exact Hs'|]. split; [rewrite Hl; apply repeat_length|].
    split; [|exact Hden].
    intros idx dv Hdv. rewrite <- (Nat.add_0_l idx), (Hin idx dv Hdv), Hz.
    unfold cosine_similarity_spec.
    destruct (Req_EM_T (sqrt (sum_sq (x :: qv'))) 0) as [Hq|Hq].
    + destruct (Req_EM_T (sqrt (sum_sq dv)) 0); [reflexivity|].
      rewrite (dot_zero_left _ _ (norm_zero_all_zero _ Hq)). unfold Rdiv. ring.
    + destruct (Req_EM_T (sqrt (sum_sq dv)) 0); [reflexivity|].
      unfold norm_query_of. destruct (Req_EM_T (sqrt (sum_sq (x :: qv'))) 0);
        [contradiction | reflexivity].
Qed.

Lemma semantic_similarity_cosine_witness :
  query_vector_of engine_unit "a"%string = Ok (Some [1%R]) /\
  exists emb, embedding_scores_of engine_unit "a"%string = Ok emb /\
    length emb = length (corpus engine_unit) /\
    (forall idx dv, nth_error (doc_embeddings engine_unit) idx = Some dv ->
       nth idx emb 0%R = cosine_similarity_spec [1%R] dv) /\
    (forall dv, sqrt (sum_sq dv) <> 0%R ->
       (norm_query_of [1%R] * sqrt (sum_sq dv) <> 0)%R).
Proof.
  split; [reflexivity|].
  apply (semantic_similarity_cosine engine_unit "a"%string [1%R]);
    [reflexivity | simpl; lia].
Defined.

(** ** Snapshot sizes after [index] *)

(** C9 (amended): after an [index] call that returns, the lexical index has
    one entry per corpus document; with an encoder that returns one vector
    per input the embedding snapshot also has one vector per document, and
    with no encoder configured it is empty. *)
Theorem index_snapshot_lengths (st : RAGEngine) (docs : list string)
  (st' : RAGEngine) (v : pyobj) :
  reachable st -> index st docs = (st', Ok v) ->
  exists m, bm25 st' = Some m /\
    length (doc_freqs m) = length (corpus st') /\
    corpus_size m = length (corpus st') /\
    (embedder st' = None -> doc_embeddings st' = []) /\
    (forall e, embedder st' = Some e -> encoder_ok e ->
       length (doc_embeddings st') = length (corpus st')).
Proof.
  intros Hr H.
  assert (Hr' : reachable st') by (replace st' with (fst (index st docs))
                                    by (rewrite H; reflexivity); constructor; exact Hr).
  unfold index in H.
  destruct (BM25Okapi_init (map split (corpus st ++ docs))) as [m|ex] eqn:Eb;
    [|discriminate].
  apply BM25Okapi_init_Ok in Eb as [Hf Hs]. rewrite length_map in Hs.
  destruct (embedder st) as [e|] eqn:Ee.
  - destruct (encode e (corpus st ++ docs)) as [vs|ex] eqn:Ev; [|discriminate].
    inversion H; subst; clear H. exists m. simpl.
    rewrite Hf, length_map. split; [reflexivity|]. split; [reflexivity|].
    split; [exact Hs|]. split; [discriminate|].
    intros e' He' Hok. inversion He'; subst.
    unfold encode in Ev. destruct (e' _) eqn:E'; inversion Ev; subst.
    apply Hok. exact E'.
  - inversion H; subst; clear H. exists m. simpl.
    rewrite Hf, length_map. split; [reflexivity|]. split; [reflexivity|].
    split; [exact Hs|]. split; [|discriminate].
    intros _. apply (reachable_no_encoder _ Hr'). reflexivity.
Qed.

(** C9 (counterexample): with no encoder, indexing ["a"] returns normally
    and leaves one lexical entry and one document but no embedding. *)
Lemma index_embeddings_not_parallel :
  snd (index engine_empty ["a"%string]) = Ok PyNone /\
  exists m, bm25 engine_a = Some m /\ length (doc_freqs m) = 1 /\
    length (corpus engine_a) = 1 /\ length (doc_embeddings engine_a) = 0.
Proof. split; [reflexivity|]. eexists. repeat split; reflexivity. Qed.

Lemma index_snapshot_lengths_witness :
  exists m, bm25 engine_a = Some m /\
    length (doc_freqs m) = length (corpus engine_a) /\
    corpus_size m = length (corpus engine_a) /\
    (embedder engine_a = None -> doc_embeddings engine_a = []) /\
    (forall e, embedder engine_a = Some e -> encoder_ok e ->
       length (doc_embeddings engine_a) = length (corpus engine_a)).
Proof.
  apply (index_snapshot_lengths engine_empty ["a"%string] engine_a PyNone).
  - apply (reach_init None []). reflexivity.
  - reflexivity.
Defined.

(** * Further properties of the engine *)

(** ** When [BM25Okapi] raises *)

Lemma vocab_acc_nil (l acc : list string) :
  fold_left (fun acc w => if mem w acc then acc else acc ++ [w]) l acc = [] ->
  acc = [] /\ l = [].
Proof.
  revert acc; induction l as [|w l IH]; intros acc H; simpl in H; [auto|].
  destruct (IH _ H) as [Hacc _].
  destruct (mem w acc) eqn:E.
  - subst. discriminate.
  - destruct acc; discriminate.
Qed.

Lemma BM25Okapi_init_cases (c : list (list string)) :
  (concat c = [] /\ BM25Okapi_init c = Raise ZeroDivisionError) \/
  (concat c <> [] /\ exists m, BM25Okapi_init c = Ok m).
Proof.
  unfold BM25Okapi_init. destruct (length c =? 0) eqn:E.
  - left. apply Nat.eqb_eq, length_zero_iff_nil in E. subst. auto.
  - rewrite length_map. destruct (length (vocab c) =? 0) eqn:V.
    + left. split; [|reflexivity].
      apply Nat.eqb_eq, length_zero_iff_nil in V.
      exact (proj2 (vocab_acc_nil _ _ V)).
    + right. split; [|eauto].
      intros Hc. unfold vocab in V. rewrite Hc in V. discriminate.
Qed.

Lemma BM25Okapi_init_Ok_iff (c : list (list string)) :
  (exists m, BM25Okapi_init c = Ok m) <-> concat c <> [].
Proof.
  destruct (BM25Okapi_init_cases c) as [[Hc Hr]|[Hc Hm]].
  - rewrite Hr. split; [intros [m H]; discriminate | contradiction].
  - tauto.
Qed.

(** X1: [index(documents)] raises [ZeroDivisionError] exactly when no
    document of the extended corpus has a whitespace-separated token. *)
Theorem index_zero_division_iff (st : RAGEngine) (docs : list string) :
  snd (index st docs) = Raise ZeroDivisionError <->
  concat (map split (corpus st ++ docs)) = [].
Proof.
  unfold index.
  destruct (BM25Okapi_init_cases (map split (corpus st ++ docs))) as [[Hc Hr]|[Hc [m Hm]]].
  - rewrite Hr. simpl. tauto.
  - rewrite Hm. split; [|contradiction]. intros H. exfalso.
    destruct (embedder st) as [e|]; simpl in H; [|discriminate].
    destruct (encode e _) eqn:Ee; simpl in H; [discriminate|].
    unfold encode in Ee. destruct (e _); inversion Ee; subst. discriminate.
Qed.

(** X2: with no encoder configured, [index(documents)] returns [None] as
    soon as the extended corpus has a token. *)
Theorem index_no_encoder_returns (st : RAGEngine) (docs : list string) :
  embedder st = None -> concat (map split (corpus st ++ docs)) <> [] ->
  snd (index st docs) = Ok PyNone.
Proof.
  intros He Hc. apply BM25Okapi_init_Ok_iff in Hc as [m Hm].
  unfold index. rewrite Hm, He. reflexivity.
Qed.

Lemma index_no_encoder_returns_witness :
  snd (index engine_empty ["a b"%string]) = Ok PyNone.
Proof. apply index_no_encoder_returns; [reflexivity | discriminate]. Defined.

(** X3: in every reachable engine, a lexical index, when present, is the
    BM25 index of the whole current corpus; a failed rebuild never leaves a
    stale index behind. *)
Theorem reachable_bm25_current (st : RAGEngine) (m : BM25Okapi) :
  reachable st -> bm25 st = Some m ->
  BM25Okapi_init (map split (corpus st)) = Ok m.
Proof.
  intros Hr. revert m. induction Hr as [fm c st H|st docs Hr IH]; intros m Hm.
  - unfold RAGEngine_init in H. inv_bind H. inv_bind H. inversion H; subst; clear H.
    simpl in *. subst a. destruct (map split c) eqn:Ec; [discriminate|].
    inv_bind Ha. inversion Ha; subst. assumption.
  - unfold index in *.
    destruct (BM25Okapi_init (map split (corpus st ++ docs))) as [m'|ex] eqn:Eb.
    + destruct (embedder st) as [e|]; [destruct (encode e _)|]; simpl in *;
        inversion Hm; subst; exact Eb.
    + simpl in *. exfalso. specialize (IH m Hm).
      assert (Hc : concat (map split (corpus st)) <> [])
        by (apply BM25Okapi_init_Ok_iff; eauto).
      destruct (BM25Okapi_init_cases (map split (corpus st ++ docs)))
        as [[Hc' _]|[_ [m'' Hm'']]]; [|congruence].
      apply Hc. rewrite map_app, concat_app in Hc'.
      apply app_eq_nil in Hc' as [H _]. exact H.
Qed.

Lemma reachable_bm25_current_witness :
  exists m, bm25 engine_a = Some m /\
    BM25Okapi_init (map split (corpus engine_a)) = Ok m.
Proof.
  eexists. split; [reflexivity|].
  apply reachable_bm25_current; [|reflexivity].
  apply (reach_index engine_empty ["a"%string]). apply (reach_init None []). reflexivity.
Defined.

(** ** Totality of [query] without an encoder *)

Lemma BM25Okapi_init_fields (c : list (list string)) (m : BM25Okapi) :
  BM25Okapi_init c = Ok m -> doc_freqs m = c /\ doc_len m = map (@length string) c.
Proof.
  unfold BM25Okapi_init. destruct (length c =? 0); [discriminate|].
  destruct (length _ =? 0); [discriminate|]. intros H. inversion H. auto.
Qed.

Lemma get_scores_length (m : BM25Okapi) (qs : list string) :
  length (get_scores m qs) = Nat.min (length (doc_freqs m)) (length (doc_len m)).
Proof. unfold get_scores. rewrite length_map, length_combine. reflexivity. Qed.

Lemma mapM_total {A B} (f : A -> result B) (l : list A) :
  (forall x, In x l -> exists y, f x = Ok y) -> exists ys, mapM f l = Ok ys.
Proof.
  induction l as [|x l IH]; intros Hl; simpl; [eauto|].
  destruct (Hl x (or_introl eq_refl)) as [y ->]. simpl.
  destruct IH as [ys ->]; [intros z Hz; apply Hl; right; exact Hz|]. simpl. eauto.
Qed.

Lemma py_get_total (xs : list R) (i : nat) :
  i < length xs -> py_get xs i = Ok (nth i xs 0%R).
Proof.
  intros H. unfold py_get. rewrite (nth_error_nth' xs 0%R H). reflexivity.
Qed.

Lemma fused_keys_total (bm emb : list R) (n : nat) :
  n <= length bm -> n <= length emb -> exists keys, fused_keys bm emb n = Ok keys.
Proof.
  intros Hb He. apply mapM_total. intros i Hi. apply in_seq in Hi.
  rewrite !py_get_total by lia. simpl. eauto.
Qed.

(** X4: in a reachable engine with no encoder configured, [query] never
    raises: it returns a list for every text and every [top_k]. *)
Theorem query_no_encoder_total (detect : string -> option string)
  (st : RAGEngine) (qtext : string) (k : Z) :
  reachable st -> embedder st = None ->
  exists res, query detect st qtext k = Ok res.
Proof.
  intros Hr He. unfold query.
  destruct (corpus st) as [|d ds] eqn:Ec; [eauto|].
  destruct (bm25 st) as [m|] eqn:Eb; [|eauto].
  rewrite <- Ec.
  apply (reachable_bm25_current st m Hr) in Eb.
  apply BM25Okapi_init_fields in Eb as [Hf Hl].
  unfold embedding_scores_of, query_vector_of. rewrite He. simpl.
  destruct (fused_keys_total (get_scores m (split qtext))
              (repeat 0%R (length (corpus st))) (length (corpus st)))
    as [keys Hk].
  { rewrite get_scores_length, Hf, Hl, !length_map, Nat.min_id. lia. }
  { rewrite repeat_length. lia. }
  rewrite Hk. simpl. eauto.
Qed.

Lemma query_no_encoder_total_witness :
  exists res, query no_detect engine_ab "b"%string 2 = Ok res.
Proof.
  apply query_no_encoder_total; [|reflexivity].
  apply (reach_index engine_empty ["a"; "b"]%string). apply (reach_init None []).
  reflexivity.
Defined.

(** ** Scores of unmatched documents *)

Lemma count_tok_not_in (w : string) (doc : list string) :
  ~ In w doc -> count_tok w doc = 0.
Proof.
  induction doc as [|t doc IH]; simpl; intros H; [reflexivity|].
  destruct (String.eqb_spec t w); [subst; tauto|]. apply IH. tauto.
Qed.

Lemma fold_sum_zero (f : string -> R) (qs : list string) (a : R) :
  (forall q, In q qs -> f q = 0%R) ->
  fold_left (fun acc q => acc + f q)%R qs a = a.
Proof.
  revert a; induction qs as [|q qs IH]; intros a H; simpl; [reflexivity|].
  rewrite H by (left; reflexivity). rewrite Rplus_0_r. apply IH.
  intros q' Hq'. apply H. right. exact Hq'.
Qed.

Lemma get_scores_nth (c : list (list string)) (m : BM25Okapi) (qs : list string)
  (idx : nat) :
  BM25Okapi_init c = Ok m -> idx < length c ->
  nth idx (get_scores m qs) 0%R =
  fold_left (fun acc q => acc + bm25_term m q (nth idx c []) (length (nth idx c [])))%R
    qs 0%R.
Proof.
  intros H Hidx. pose proof (BM25Okapi_init_fields c m H) as [Hf Hl].
  unfold get_scores. rewrite Hf, Hl.
  set (f := fun p : list string * nat =>
              fold_left (fun acc q => acc + bm25_term m q (fst p) (snd p))%R qs 0%R).
  rewrite (nth_indep _ 0%R (f ([], 0))) by
    (rewrite length_map, length_combine, length_map, Nat.min_id; exact Hidx).
  rewrite map_nth, combine_nth by (rewrite length_map; reflexivity).
  unfold f; simpl. rewrite (nth_indep _ 0 (length (@nil string)))
    by (rewrite length_map; exact Hidx).
  rewrite map_nth. reflexivity.
Qed.

(** X5: in a reachable engine, a returned document that contains none of
    the query's tokens has score 0. *)
Theorem query_unmatched_score_zero (detect : string -> option string)
  (st : RAGEngine) (qtext : string) (k : Z) res r :
  reachable st -> query detect st qtext k = Ok res -> In r res ->
  (forall q, In q (split qtext) -> ~ In q (split (text r))) ->
  score r = 0%R.
Proof.
  intros Hr H Hin Hno.
  destruct (query_result_chunk detect st qtext k res r H Hin) as [m [idx [Hm [Hidx ->]]]].
  simpl in *. apply (reachable_bm25_current st m Hr) in Hm.
  rewrite (get_scores_nth _ _ _ idx Hm) by (rewrite length_map; exact Hidx).
  apply fold_sum_zero. intros q Hq.
  rewrite (nth_indep _ [] (split EmptyString)) by (rewrite length_map; exact Hidx).
  rewrite map_nth. unfold bm25_term.
  rewrite count_tok_not_in by (apply Hno; exact Hq). simpl INR.
  unfold Rdiv. ring.
Qed.

Lemma query_unmatched_score_zero_witness :
  exists res r, query no_detect engine_a "zzz"%string 1 = Ok res /\ In r res /\
    score r = 0%R.
Proof.
  do 2 eexists. split; [reflexivity|]. split; [left; reflexivity|].
  eapply (query_unmatched_score_zero no_detect engine_a "zzz"%string 1).
  - apply (reach_index engine_empty ["a"%string]). apply (reach_init None []). reflexivity.
  - reflexivity.
  - left; reflexivity.
  - intros q [<-|[]] [H|[]]. discriminate.
Defined.

(** ** Case of the query in highlights *)

Lemma is_space_lower_char (c : ascii) : is_space (lower_char c) = is_space c.
Proof. destruct c as [[] [] [] [] [] [] [] []]; reflexivity. Qed.

Lemma lower_char_idem (c : ascii) : lower_char (lower_char c) = lower_char c.
Proof. destruct c as [[] [] [] [] [] [] [] []]; reflexivity. Qed.

Lemma lower_idem (s : string) : lower (lower s) = lower s.
Proof. induction s as [|c s IH]; simpl; [reflexivity|]. rewrite lower_char_idem, IH. reflexivity. Qed.

Lemma lower_append (a b : string) : lower (String.append a b) = String.append (lower a) (lower b).
Proof. induction a as [|c a IH]; simpl; [reflexivity|]. rewrite IH. reflexivity. Qed.

Lemma split_aux_lower (s cur : string) :
  split_aux (lower s) (lower cur) = map lower (split_aux s cur).
Proof.
  revert cur; induction s as [|c s IH]; intros cur; simpl.
  - destruct cur; reflexivity.
  - rewrite is_space_lower_char. destruct (is_space c).
    + destruct cur as [|c' cur]; simpl.
      * exact (IH EmptyString).
      * f_equal. exact (IH EmptyString).
    + rewrite <- IH, lower_append. reflexivity.
Qed.

Lemma split_lower (s : string) : split (lower s) = map lower (split s).
Proof. exact (split_aux_lower s EmptyString). Qed.

(** X6: highlights do not depend on the case of the query: lowering the
    query text gives the same highlights for every document. *)
Theorem highlights_query_case_insensitive (q doc : string) :
  highlights_of (split (lower q)) doc = highlights_of (split q) doc.
Proof.
  unfold highlights_of, token_set. rewrite !filter_nonempty_split, split_lower,
    map_map, (map_ext (fun x => lower (lower x)) lower lower_idem).
  reflexivity.
Qed.

(** ** Upload file names (documents.py) *)

Lemma list_ascii_of_string_append (a b : string) :
  list_ascii_of_string (String.append a b) = list_ascii_of_string a ++ list_ascii_of_string b.
Proof. induction a as [|c a IH]; simpl; [reflexivity|]. rewrite IH. reflexivity. Qed.

Lemma list_ascii_of_string_lower (s : string) :
  list_ascii_of_string (lower s) = map lower_char (list_ascii_of_string s).
Proof. induction s as [|c s IH]; simpl; [reflexivity|]. rewrite IH. reflexivity. Qed.

Lemma rfind_aux_app (ch : ascii) (a b : list ascii) (i best : Z) :
  rfind_aux ch (a ++ b) i best =
  rfind_aux ch b (i + Z.of_nat (length a)) (rfind_aux ch a i best).
Proof.
  revert i best; induction a as [|c a IH]; intros i best; simpl.
  - rewrite Z.add_0_r. reflexivity.
  - rewrite IH. f_equal. lia.
Qed.

Lemma rfind_aux_absent (ch : ascii) (l : list ascii) (i best : Z) :
  ~ In ch l -> rfind_aux ch l i best = best.
Proof.
  revert i best; induction l as [|c l IH]; intros i best H; simpl; [reflexivity|].
  destruct (Ascii.eqb_spec c ch); [subst; simpl in H; tauto|].
  apply IH. simpl in H. tauto.
Qed.

Lemma rfind_aux_bounds (ch : ascii) (l : list ascii) (i best : Z) :
  (-1 <= best < i)%Z -> (-1 <= rfind_aux ch l i best < i + Z.of_nat (length l))%Z.
Proof.
  revert i best; induction l as [|c l IH]; intros i best H; simpl; [lia|].
  specialize (IH (i + 1)%Z (if (c =? ch)%char then i else best)).
  destruct ((c =? ch)%char); lia.
Qed.

Lemma rfind_aux_dots (n : nat) (i best : Z) :
  rfind_aux "." (repeat "."%char n) i best =
  match n with 0 => best | S _ => (i + Z.of_nat n - 1)%Z end.
Proof.
  revert i best; induction n as [|n IH]; intros i best; [reflexivity|].
  simpl repeat. cbn [rfind_aux]. rewrite IH. simpl. destruct n; lia.
Qed.

Lemma lower_char_dot (c : ascii) : lower_char c = "."%char -> c = "."%char.
Proof. destruct c as [[] [] [] [] [] [] [] []]; cbv; congruence. Qed.

Lemma lower_char_slash (c : ascii) : lower_char c <> "/"%char -> c <> "/"%char.
Proof. intros H ->. apply H. reflexivity. Qed.

Lemma lower_char_not_dot (c : ascii) : lower_char c <> "."%char -> c <> "."%char.
Proof. intros H ->. apply H. reflexivity. Qed.

(** The allowed extensions are a dot followed by a name with neither a dot
    nor a slash; so is every string that lower-cases to one of them. *)
Lemma allowed_extension_shape (ext : string) :
  In (lower ext) ALLOWED_TEXT_EXTENSIONS ->
  exists rest, list_ascii_of_string ext = "."%char :: rest /\
    forall x, In x rest -> x <> "."%char /\ x <> "/"%char.
Proof.
  intros H.
  assert (Hs : exists rest', list_ascii_of_string (lower ext) = "."%char :: rest' /\
            forall x, In x rest' -> x <> "."%char /\ x <> "/"%char).
  { simpl in H. repeat (destruct H as [H|H]; [rewrite <- H; eexists; split;
      [reflexivity | intros x Hx; simpl in Hx;
       repeat (destruct Hx as [<-|Hx]; [split; discriminate|]); contradiction]|]).
    contradiction. }
  destruct Hs as [rest' [Hl Hr]]. rewrite list_ascii_of_string_lower in Hl.
  destruct (list_ascii_of_string ext) as [|x rest]; [discriminate|].
  simpl in Hl. injection Hl as Hx Hrest. exists rest. split.
  - rewrite (lower_char_dot x Hx). reflexivity.
  - intros y Hy. assert (Hy' : In (lower_char y) rest') by (rewrite <- Hrest; apply in_map; exact Hy).
    destruct (Hr _ Hy') as [H1 H2]. split; [apply lower_char_not_dot | apply lower_char_slash]; assumption.
Qed.

Lemma existsb_not_dot_in (c : ascii) (l : list ascii) :
  c <> "."%char -> In c l -> existsb (fun c => negb (Ascii.eqb c ".")) l = true.
Proof.
  intros Hc Hin. apply existsb_exists. exists c. split; [exact Hin|].
  destruct (Ascii.eqb_spec c "."); [contradiction | reflexivity].
Qed.

Lemma splitext_ext_suffix (pre : list ascii) (c : ascii) (rest : list ascii) :
  c <> "."%char -> c <> "/"%char ->
  (forall x, In x rest -> x <> "."%char /\ x <> "/"%char) ->
  splitext_ext (pre ++ c :: "."%char :: rest) = "."%char :: rest.
Proof.
  intros Hc1 Hc2 Hr. unfold splitext_ext, rfind.
  assert (Hnd : ~ In "."%char rest) by (intros Hin; destruct (Hr _ Hin) as [H _]; exact (H eq_refl)).
  assert (Hns : ~ In "/"%char rest) by (intros Hin; destruct (Hr _ Hin) as [_ H]; exact (H eq_refl)).
  rewrite !rfind_aux_app. cbn [rfind_aux].
  rewrite (rfind_aux_absent "." rest), (rfind_aux_absent "/" rest) by assumption.
  destruct (Ascii.eqb_spec c "."); [contradiction|].
  destruct (Ascii.eqb_spec c "/"); [contradiction|].
  change (("." =? ".")%char) with true. change (("." =? "/")%char) with false.
  cbv iota.
  set (s := rfind_aux "/" pre 0 (-1)).
  assert (Hs : (-1 <= s < Z.of_nat (length pre))%Z)
    by (pose proof (rfind_aux_bounds "/" pre 0 (-1)); lia).
  replace (0 + Z.of_nat (length pre) + 1)%Z with (Z.of_nat (length pre) + 1)%Z by lia.
  destruct (Z.ltb_spec s (Z.of_nat (length pre) + 1)); [|lia].
  rewrite (existsb_not_dot_in c); [| exact Hc1 |].
  - replace (Z.to_nat (Z.of_nat (length pre) + 1)) with (S (length pre)) by lia.
    rewrite skipn_app, skipn_all2 by lia.
    replace (S (length pre) - length pre) with 1 by lia. reflexivity.
  - rewrite skipn_app. replace (Z.to_nat (s + 1) - length pre) with 0 by lia.
    rewrite firstn_app, length_skipn.
    replace (Z.to_nat (Z.of_nat (length pre) + 1 - (s + 1)) - (length pre - Z.to_nat (s + 1)))
      with 1 by lia.
    apply in_or_app. right. simpl. left. reflexivity.
Qed.

Lemma splitext_ext_dots (n : nat) (base : list ascii) :
  (forall x, In x base -> x <> "."%char /\ x <> "/"%char) ->
  splitext_ext (repeat "."%char n ++ base) = [].
Proof.
  intros Hb. unfold splitext_ext, rfind.
  assert (Hnd : ~ In "."%char base) by (intros Hin; destruct (Hb _ Hin) as [H _]; exact (H eq_refl)).
  assert (Hns : ~ In "/"%char base) by (intros Hin; destruct (Hb _ Hin) as [_ H]; exact (H eq_refl)).
  rewrite !rfind_aux_app, (rfind_aux_absent "." base), (rfind_aux_absent "/" base)
    by assumption.
  rewrite rfind_aux_absent by (intros Hin; apply repeat_spec in Hin; discriminate).
  rewrite rfind_aux_dots. destruct n as [|n]; [reflexivity|].
  destruct (Z.ltb_spec (-1) (0 + Z.of_nat (S n) - 1)); [|reflexivity].
  replace (Z.to_nat (0 + Z.of_nat (S n) - 1 - (-1 + 1))) with n by lia.
  change (Z.to_nat (-1 + 1)) with 0. cbn [skipn]. rewrite firstn_app.
  replace (n - length (repeat "."%char (S n))) with 0 by (rewrite repeat_length; lia).
  rewrite firstn_0, app_nil_r.
  assert (Hf : existsb (fun c => negb (c =? ".")%char) (firstn n (repeat "."%char (S n))) = false).
  { apply Bool.not_true_iff_false. intros He. apply existsb_exists in He as [x [Hx Hx']].
    assert (Hx2 : In x (repeat "."%char (S n))) by
      (rewrite <- (firstn_skipn n (repeat "."%char (S n))); apply in_or_app; left; exact Hx).
    apply repeat_spec in Hx2. subst x. discriminate. }
  rewrite Hf. reflexivity.
Qed.

(** X7: a file whose name ends in one of the allowed text extensions, in
    any letter case, after a stem whose last character is neither a dot
    nor a slash, is read as exactly one text: the decoded bytes. *)
Theorem extract_allowed_extension (decode : bytes -> string)
  (extract_from_pdf : bytes -> aresult (list string))
  (pre : string) (c : ascii) (ext : string) (data : bytes) :
  c <> "."%char -> c <> "/"%char -> In (lower ext) ALLOWED_TEXT_EXTENSIONS ->
  extract_texts_from_upload decode extract_from_pdf
    (Some (String.append pre (String c ext))) data = AOk [decode data].
Proof.
  intros Hc1 Hc2 Hext. unfold extract_texts_from_upload.
  destruct (allowed_extension_shape ext Hext) as [rest [Hl Hr]].
  rewrite list_ascii_of_string_append. cbn [list_ascii_of_string]. rewrite Hl.
  rewrite splitext_ext_suffix by assumption.
  rewrite <- Hl, string_of_list_ascii_of_string.
  replace (existsb (String.eqb (lower ext)) ALLOWED_TEXT_EXTENSIONS) with true;
    [reflexivity|].
  symmetry. apply existsb_exists. exists (lower ext). split; [exact Hext|].
  apply String.eqb_refl.
Qed.

Lemma extract_allowed_extension_witness :
  extract_texts_from_upload (fun _ => "text"%string) (fun _ => AOk [])
    (Some (String.append "notes/Repor" (String "t" ".TXT"))) [] = AOk ["text"%string].
Proof.
  apply extract_allowed_extension; [discriminate | discriminate |].
  simpl. tauto.
Defined.

(** X8: a file name made of leading dots followed by a name with no dot
    and no slash (such as "README" or ".txt") has no extension, and is
    rejected with [ValueError("Unsupported file type: <name>")]. *)
Theorem extract_no_extension_rejected (decode : bytes -> string)
  (extract_from_pdf : bytes -> aresult (list string))
  (n : nat) (base : string) (data : bytes) :
  (forall x, In x (list_ascii_of_string base) -> x <> "."%char /\ x <> "/"%char) ->
  extract_texts_from_upload decode extract_from_pdf
    (Some (String.append (string_of_list_ascii (repeat "."%char n)) base)) data =
  ARaise (ValueError (String.append "Unsupported file type: "
            (String.append (string_of_list_ascii (repeat "."%char n)) base))).
Proof.
  intros Hb. unfold extract_texts_from_upload.
  rewrite list_ascii_of_string_append, list_ascii_of_string_of_list_ascii,
    splitext_ext_dots by exact Hb.
  reflexivity.
Qed.

Lemma extract_no_extension_rejected_witness :
  extract_texts_from_upload (fun _ => "text"%string) (fun _ => AOk [])
    (Some (String.append (string_of_list_ascii (repeat "."%char 1)) "txt")) [] =
  ARaise (ValueError "Unsupported file type: .txt").
Proof.
  apply (extract_no_extension_rejected _ _ 1 "txt").
  intros x Hx. simpl in Hx.
  repeat (destruct Hx as [<-|Hx]; [split; discriminate|]). contradiction.
Defined.

(** ** [str.strip] *)

Lemma lstrip_chars_suffix (l : list ascii) : exists x, l = x ++ lstrip_chars l.
Proof.
  induction l as [|c l [x IH]]; simpl; [exists []; reflexivity|].
  destruct (is_space c); [exists (c :: x); simpl; f_equal; exact IH|].
  exists []. reflexivity.
Qed.

Lemma lstrip_chars_head (l : list ascii) :
  lstrip_chars l = [] \/ exists c r, lstrip_chars l = c :: r /\ is_space c = false.
Proof.
  induction l as [|c l IH]; simpl; [auto|].
  destruct (is_space c) eqn:E; [exact IH|]. right. eauto.
Qed.

Lemma lstrip_chars_fixed (l : list ascii) :
  (l = [] \/ exists c r, l = c :: r /\ is_space c = false) -> lstrip_chars l = l.
Proof. intros [->|[c [r [-> E]]]]; simpl; [reflexivity|]. rewrite E. reflexivity. Qed.

Lemma lstrip_chars_idem (l : list ascii) : lstrip_chars (lstrip_chars l) = lstrip_chars l.
Proof. apply lstrip_chars_fixed, lstrip_chars_head. Qed.

Lemma lstrip_chars_keeps (c : ascii) (l : list ascii) :
  In c l -> is_space c = false -> In c (lstrip_chars l).
Proof.
  induction l as [|d l IH]; simpl; intros Hin Hc; [contradiction|].
  destruct Hin as [<-|Hin].
  - rewrite Hc. left. reflexivity.
  - destruct (is_space d); [apply IH; assumption | right; exact Hin].
Qed.

Lemma strip_idem (s : string) : strip (strip s) = strip s.
Proof.
  unfold strip. rewrite list_ascii_of_string_of_list_ascii. f_equal.
  set (l1 := lstrip_chars (list_ascii_of_string s)).
  set (m := lstrip_chars (rev l1)).
  destruct (lstrip_chars_suffix (rev l1)) as [x Hx]. fold m in Hx.
  assert (Hl1 : l1 = rev m ++ rev x) by (rewrite <- rev_app_distr, <- Hx, rev_involutive; reflexivity).
  rewrite (lstrip_chars_fixed (rev m)).
  - rewrite rev_involutive. unfold m. rewrite lstrip_chars_idem. reflexivity.
  - destruct (rev m) as [|c r] eqn:Er; [left; reflexivity|]. right. exists c, r.
    split; [reflexivity|].
    destruct (lstrip_chars_head (list_ascii_of_string s)) as [H|[c' [r' [H Hc']]]];
      fold l1 in H; rewrite Hl1 in H; simpl in H; [discriminate|].
    injection H as -> _. exact Hc'.
Qed.

Lemma strip_keeps (s : string) (c : ascii) :
  In c (list_ascii_of_string s) -> is_space c = false ->
  In c (list_ascii_of_string (strip s)).
Proof.
  intros Hin Hc. unfold strip. rewrite list_ascii_of_string_of_list_ascii.
  apply in_rev. rewrite rev_involutive. apply lstrip_chars_keeps; [|exact Hc].
  apply in_rev. rewrite rev_involutive. apply lstrip_chars_keeps; assumption.
Qed.

Lemma strip_nonblank_char (s : string) :
  strip s <> EmptyString ->
  exists c, In c (list_ascii_of_string (strip s)) /\ is_space c = false.
Proof.
  unfold strip. rewrite list_ascii_of_string_of_list_ascii.
  destruct (lstrip_chars_head (rev (lstrip_chars (list_ascii_of_string s))))
    as [H|[c [r [H Hc]]]]; rewrite H; [intros N; contradiction N; reflexivity|].
  intros _. exists c. split; [|exact Hc]. apply in_rev. rewrite rev_involutive. left. reflexivity.
Qed.

Lemma strip_String_nonspace (c : ascii) (s : string) :
  is_space c = false -> strip (String c s) <> EmptyString.
Proof.
  intros Hc H. assert (Hin : In c (list_ascii_of_string (strip (String c s))))
    by (apply strip_keeps; [left; reflexivity | exact Hc]).
  rewrite H in Hin. contradiction.
Qed.

Lemma split_aux_cur_nonempty (s cur : string) :
  cur <> EmptyString -> split_aux s cur <> [].
Proof.
  revert cur; induction s as [|c s IH]; intros cur Hcur; simpl.
  - destruct cur; [contradiction|discriminate].
  - destruct (is_space c); [destruct cur; [contradiction|discriminate]|].
    apply IH. destruct cur; discriminate.
Qed.

Lemma split_aux_nonspace (s cur : string) (c : ascii) :
  In c (list_ascii_of_string s) -> is_space c = false -> split_aux s cur <> [].
Proof.
  revert cur; induction s as [|d s IH]; intros cur Hin Hc; simpl in *; [contradiction|].
  destruct Hin as [<-|Hin].
  - rewrite Hc. apply split_aux_cur_nonempty. destruct cur; discriminate.
  - destruct (is_space d).
    + destruct cur; [apply IH; assumption | discriminate].
    + apply IH; assumption.
Qed.

Lemma split_strip_nonempty (s : string) :
  strip s <> EmptyString -> split (strip s) <> [].
Proof.
  intros H. destruct (strip_nonblank_char s H) as [c [Hin Hc]].
  exact (split_aux_nonspace _ _ c Hin Hc).
Qed.

(** ** The upload and index endpoints (app.py) *)

Lemma index_corpus (st : RAGEngine) (docs : list string) :
  corpus (fst (index st docs)) = corpus st ++ docs.
Proof.
  unfold index. destruct (BM25Okapi_init _); simpl; [|reflexivity].
  destruct (embedder st) as [e|]; simpl; [|reflexivity].
  destruct (encode e _); reflexivity.
Qed.

Lemma extract_all_http (decode : bytes -> string)
  (extract_from_pdf : bytes -> aresult (list string))
  (files : list (option string * bytes)) (e : app_exn) :
  extract_all decode extract_from_pdf files = ARaise e ->
  exists status detail, e = HTTPException status detail.
Proof.
  induction files as [|[fn data] files IH]; simpl; [discriminate|].
  destruct (extract_texts_from_upload decode extract_from_pdf fn data) as [ts|[]];
    try (intros H; injection H as <-; eauto).
  destruct (extract_all decode extract_from_pdf files); simpl; [discriminate|].
  intros H. injection H as <-. apply IH. reflexivity.
Qed.

(** X9: an upload that fails with an HTTP error (no files, a rejected or
    unreadable file, no text) leaves the engine untouched: nothing of the
    batch is indexed. *)
Theorem upload_http_error_keeps_engine (decode : bytes -> string)
  (extract_from_pdf : bytes -> aresult (list string))
  (st : RAGEngine) (files : list (option string * bytes)) status detail :
  snd (upload_documents decode extract_from_pdf st files) =
    ARaise (HTTPException status detail) ->
  fst (upload_documents decode extract_from_pdf st files) = st.
Proof.
  unfold upload_documents. destruct files as [|f fs]; [reflexivity|].
  destruct (extract_all decode extract_from_pdf (f :: fs)) as [ex|e]; [|reflexivity].
  destruct (filter _ _) as [|t ts]; [reflexivity|].
  destruct (index st (t :: ts)) as [st' [r|e]]; simpl; discriminate.
Qed.

Lemma upload_http_error_keeps_engine_witness :
  snd (upload_documents (fun _ => "text"%string) (fun _ => AOk []) engine_a
         [(Some "notes.txt"%string, []); (Some "tool.exe"%string, [])]) =
    ARaise (HTTPException 400 "Unsupported file type: tool.exe") /\
  fst (upload_documents (fun _ => "text"%string) (fun _ => AOk []) engine_a
         [(Some "notes.txt"%string, []); (Some "tool.exe"%string, [])]) = engine_a.
Proof.
  split; [reflexivity|]. apply (upload_http_error_keeps_engine _ _ _ _ 400
    "Unsupported file type: tool.exe"). reflexivity.
Defined.

(** X10: a successful upload reports the number of files received and the
    number of documents added; the corpus grows by exactly that many
    documents, each of them non-empty and already stripped of surrounding
    whitespace. *)
Theorem upload_success_appends (decode : bytes -> string)
  (extract_from_pdf : bytes -> aresult (list string))
  (st : RAGEngine) (files : list (option string * bytes)) (nf nd : nat) :
  snd (upload_documents decode extract_from_pdf st files) = AOk (nf, nd) ->
  nf = length files /\
  exists added,
    corpus (fst (upload_documents decode extract_from_pdf st files)) = corpus st ++ added /\
    length added = nd /\
    forall t, In t added -> t <> EmptyString /\ strip t = t.
Proof.
  unfold upload_documents. destruct files as [|f fs]; [discriminate|].
  destruct (extract_all decode extract_from_pdf (f :: fs)) as [ex|e]; [|discriminate].
  destruct (filter _ (map strip ex)) as [|t ts] eqn:Ec; [discriminate|].
  pose proof (index_corpus st (t :: ts)) as Hc.
  destruct (index st (t :: ts)) as [st' [r|e]]; simpl; [|discriminate].
  intros H. injection H as <- <-. split; [reflexivity|].
  exists (t :: ts). split; [exact Hc|]. split; [reflexivity|].
  intros x Hx. rewrite <- Ec in Hx. apply filter_In in Hx as [Hx Hne].
  apply in_map_iff in Hx as [y [<- _]]. split.
  - intros E. rewrite E in Hne. discriminate.
  - apply strip_idem.
Qed.

Lemma upload_success_appends_witness :
  snd (upload_documents (fun _ => " two words "%string) (fun _ => AOk [])
         engine_empty [(Some "a.md"%string, [])]) = AOk (1, 1) /\
  1 = length [(Some "a.md"%string, @nil Byte.byte)] /\
  exists added,
    corpus (fst (upload_documents (fun _ => " two words "%string) (fun _ => AOk [])
                   engine_empty [(Some "a.md"%string, [])])) = corpus engine_empty ++ added /\
    length added = 1 /\
    forall t, In t added -> t <> EmptyString /\ strip t = t.
Proof.
  split; [reflexivity|].
  apply (upload_success_appends _ _ _ _ 1 1). reflexivity.
Defined.

(** X11: with no encoder configured, an upload never fails inside the
    engine: the texts it indexes are non-blank, so the BM25 build always
    finds a token. *)
Theorem upload_no_encoder_no_engine_error (decode : bytes -> string)
  (extract_from_pdf : bytes -> aresult (list string))
  (st : RAGEngine) (files : list (option string * bytes)) (e : exn) :
  embedder st = None ->
  snd (upload_documents decode extract_from_pdf st files) <> ARaise (EngineError e).
Proof.
  intros Hno. unfold upload_documents. destruct files as [|f fs]; [discriminate|].
  destruct (extract_all decode extract_from_pdf (f :: fs)) as [ex|e'] eqn:Ex;
    [|destruct (extract_all_http _ _ _ _ Ex) as [? [? ->]]; discriminate].
  destruct (filter _ (map strip ex)) as [|t ts] eqn:Ec; [discriminate|].
  assert (Ht : In t (filter (fun t => negb (String.eqb t EmptyString)) (map strip ex)))
    by (rewrite Ec; left; reflexivity).
  apply filter_In in Ht as [Ht Hne]. apply in_map_iff in Ht as [y [<- _]].
  assert (Hy : strip y <> EmptyString)
    by (intros E; rewrite E in Hne; discriminate).
  destruct (split (strip y)) as [|w ws] eqn:Ew;
    [exfalso; exact (split_strip_nonempty y Hy Ew)|].
  unfold index.
  destruct (BM25Okapi_init_cases (map split (corpus st ++ strip y :: ts)))
    as [[Hc _]|[_ [m Hm]]].
  - exfalso. rewrite map_app, concat_app in Hc. apply app_eq_nil in Hc as [_ Hc].
    simpl in Hc. rewrite Ew in Hc. discriminate.
  - rewrite Hm, Hno. simpl. discriminate.
Qed.

Lemma upload_no_encoder_no_engine_error_witness :
  snd (upload_documents (fun _ => "word"%string) (fun _ => AOk [])
         engine_empty [(Some "a.md"%string, [])]) <> ARaise (EngineError ZeroDivisionError).
Proof. apply upload_no_encoder_no_engine_error. reflexivity. Defined.

(** ** Confidence of the returned documents (app.py) *)

Lemma max_fold_ge (xs : list R) (m : R) :
  (m <= fold_left (fun m y => if Rlt_dec m y then y else m) xs m)%R /\
  forall y, In y xs -> (y <= fold_left (fun m y => if Rlt_dec m y then y else m) xs m)%R.
Proof.
  revert m; induction xs as [|x xs IH]; intros m; simpl; [split; [lra | tauto]|].
  destruct (Rlt_dec m x) as [Hlt|Hge]; destruct (IH x) as [IH1 IH2];
    destruct (IH m) as [IH3 IH4]; split.
  - lra.
  - intros y [<-|Hy]; [exact IH1 | exact (IH2 y Hy)].
  - exact IH3.
  - intros y [<-|Hy]; [lra | exact (IH4 y Hy)].
Qed.

Lemma max_fold_in (xs : list R) (m : R) :
  fold_left (fun m y => if Rlt_dec m y then y else m) xs m = m \/
  In (fold_left (fun m y => if Rlt_dec m y then y else m) xs m) xs.
Proof.
  revert m; induction xs as [|x xs IH]; intros m; simpl; [auto|].
  destruct (Rlt_dec m x).
  - destruct (IH x) as [->|H]; auto.
  - destruct (IH m) as [->|H]; auto.
Qed.

Lemma max_score_ge (scores : list R) (y : R) :
  In y scores -> (y <= max_score scores)%R.
Proof.
  destruct scores as [|x xs]; simpl; [tauto|].
  destruct (max_fold_ge xs x) as [H1 H2]. intros [<-|Hy]; [exact H1 | exact (H2 y Hy)].
Qed.

Lemma max_score_in (scores : list R) :
  scores <> [] -> In (max_score scores) scores.
Proof.
  destruct scores as [|x xs]; [contradiction|]. intros _. simpl.
  destruct (max_fold_in xs x) as [->|H]; auto.
Qed.

Lemma in_confidences (docs : list RetrievedChunk) (c : R) :
  In c (confidences docs) ->
  exists d, In d docs /\ c = confidence (score d) (max_score (map score docs)).
Proof.
  unfold confidences. intros H. apply in_map_iff in H as [d [<- Hd]]. eauto.
Qed.

(** X13: when the best score is positive, every confidence is at most 1,
    and a document with the best score gets confidence exactly 1. *)
Theorem confidence_le_one (docs : list RetrievedChunk) :
  (0 < max_score (map score docs))%R ->
  (forall c, In c (confidences docs) -> (c <= 1)%R) /\ In 1%R (confidences docs).
Proof.
  intros Hm. split.
  - intros c Hc. apply in_confidences in Hc as [d [Hd ->]]. unfold confidence.
    destruct (Req_EM_T (max_score (map score docs)) 0) as [E|_]; [lra|].
    assert (Hle : (score d <= max_score (map score docs))%R)
      by (apply max_score_ge, in_map, Hd).
    unfold Rdiv. rewrite <- (Rinv_r (max_score (map score docs))) by lra.
    apply Rmult_le_compat_r; [left; apply Rinv_0_lt_compat; exact Hm | exact Hle].
  - assert (Hne : map score docs <> []) by (intros E; rewrite E in Hm; simpl in Hm; lra).
    apply max_score_in in Hne. apply in_map_iff in Hne as [d [Hd Hin]].
    unfold confidences. apply in_map_iff. exists d. split; [|exact Hin].
    unfold confidence. destruct (Req_EM_T (max_score (map score docs)) 0) as [E|_]; [lra|].
    rewrite Hd. field. lra.
Qed.

Lemma confidence_le_one_witness :
  (forall c, In c (confidences [chunk_with_score 2; chunk_with_score 1]) -> (c <= 1)%R) /\
  In 1%R (confidences [chunk_with_score 2; chunk_with_score 1]).
Proof.
  apply confidence_le_one. simpl. destruct (Rlt_dec 2 1); lra.
Defined.

(** X14: when every score is negative, the best score is negative and
    every confidence is at least 1. *)
Theorem confidence_negative_scores (docs : list RetrievedChunk) :
  (max_score (map score docs) < 0)%R ->
  forall c, In c (confidences docs) -> (1 <= c)%R.
Proof.
  intros Hm c Hc. apply in_confidences in Hc as [d [Hd ->]]. unfold confidence.
  destruct (Req_EM_T (max_score (map score docs)) 0) as [E|_]; [lra|].
  assert (Hle : (score d <= max_score (map score docs))%R)
    by (apply max_score_ge, in_map, Hd).
  set (M := max_score (map score docs)) in *.
  assert (Hi : (/ M < 0)%R) by (apply Rinv_lt_0_compat; exact Hm).
  assert (Hp : (0 <= (M - score d) * - / M)%R) by (apply Rmult_le_pos; lra).
  assert (Hmm : (M * / M = 1)%R) by (apply Rinv_r; lra).
  unfold Rdiv. nra.
Qed.

Lemma confidence_negative_scores_witness :
  (1 <= nth 1 (confidences [chunk_with_score (-1); chunk_with_score (-2)]) 0)%R.
Proof.
  apply (confidence_negative_scores [chunk_with_score (-1); chunk_with_score (-2)]).
  - simpl. destruct (Rlt_dec (-1) (-2)); lra.
  - apply nth_In. simpl. lia.
Defined.

(** ** Fallback answers and translation (llm_client.py) *)

Lemma choose_translation_nonblank (base tr : string) (b : bool) :
  strip base <> EmptyString ->
  strip (if b then (if negb (String.eqb (strip tr) EmptyString) then tr else base)
         else base) <> EmptyString.
Proof.
  intros Hb. destruct b; [|exact Hb].
  destruct (String.eqb_spec (strip tr) EmptyString); simpl; assumption.
Qed.

(** X16: the fallback answer is never blank, whatever the translation
    endpoints reply. *)
Theorem fallback_response_nonblank (cfg : llm_config) (tr_openai tr_primary : chat_response)
  (documents : list RetrievedChunk) (language : string) :
  strip (fallback_response cfg tr_openai tr_primary documents language) <> EmptyString.
Proof.
  unfold fallback_response. cbv zeta.
  apply choose_translation_nonblank.
  destruct (map _ (filter _ _)); apply strip_String_nonspace; reflexivity.
Qed.

Lemma py_or_str_strip (c text : string) :
  py_or_str (strip c) text = text \/
  (py_or_str (strip c) text <> EmptyString /\ strip (py_or_str (strip c) text) = py_or_str (strip c) text).
Proof.
  unfold py_or_str. destruct (String.eqb_spec (strip c) EmptyString); [left; reflexivity|].
  right. split; [assumption | apply strip_idem].
Qed.

(** X17: [translate_text] returns either its input unchanged or a
    non-empty translation with no surrounding whitespace. *)
Theorem translate_text_result (cfg : llm_config) (openai_reply primary_reply : chat_response)
  (text : string) (target_lang : option string) :
  translate_text cfg openai_reply primary_reply text target_lang = text \/
  (translate_text cfg openai_reply primary_reply text target_lang <> EmptyString /\
   strip (translate_text cfg openai_reply primary_reply text target_lang) =
   translate_text cfg openai_reply primary_reply text target_lang).
Proof.
  unfold translate_text.
  destruct (_ || _); [left; reflexivity|].
  destruct (truthy (openai_api_key cfg));
    [destruct openai_reply as [|[|c cs]]; [| |apply py_or_str_strip]|];
    (destruct (is_enabled cfg);
     [destruct primary_reply as [|[|c' cs']]; [left; reflexivity|left; reflexivity|apply py_or_str_strip]
     |left; reflexivity]).
Qed.

(** ** Answer language ([generate] and [run_query]) *)

Lemma generate_lang_cases (cfg : llm_config) (net : llm_replies) (query : string)
  (query_lang : option string) (documents : list RetrievedChunk)
  (target_lang : option string) (a : string) (l : option string) :
  generate cfg net query query_lang documents target_lang = AOk (a, l) ->
  (strip query = EmptyString /\ a = EmptyString /\ l = query_lang) \/
  (strip query <> EmptyString /\ l = Some (desired_lang_code target_lang query_lang)).
Proof.
  unfold generate, generate_with_openai, abind. cbv zeta.
  destruct (String.eqb_spec (strip query) EmptyString) as [E|E].
  - intros H. injection H as <- <-. auto.
  - intros H. right. split; [exact E|].
    repeat match type of H with
           | context [if ?b then _ else _] => destruct b
           | context [match ?x with _ => _ end] => destruct x
           end;
      try discriminate; injection H as _ <-; reflexivity.
Qed.

Lemma desired_lang_code_cases (target_lang query_lang : option string) :
  desired_lang_code target_lang query_lang <> EmptyString /\
  (truthy target_lang = true -> Some (desired_lang_code target_lang query_lang) = target_lang) /\
  (truthy target_lang = false -> truthy query_lang = true ->
     Some (desired_lang_code target_lang query_lang) = query_lang) /\
  (truthy target_lang = false -> truthy query_lang = false ->
     desired_lang_code target_lang query_lang = "en"%string).
Proof.
  unfold desired_lang_code, py_or, py_or_str.
  destruct target_lang as [t|], query_lang as [q|]; simpl;
    repeat match goal with
           | |- context [String.eqb ?s EmptyString] =>
               destruct (String.eqb_spec s EmptyString); simpl
           end;
    repeat split; intros; try discriminate; try congruence; try reflexivity.
Qed.

(** X18: [generate] answers a blank query with an empty text in the query's
    language; for any other query, whichever branch produced the answer,
    its language is a non-empty code: [target_lang] when set, otherwise
    [query_lang] when set, otherwise "en". *)
Theorem generate_answer_language (cfg : llm_config) (net : llm_replies) (query : string)
  (query_lang : option string) (documents : list RetrievedChunk)
  (target_lang : option string) (a : string) (l : option string) :
  generate cfg net query query_lang documents target_lang = AOk (a, l) ->
  (strip query = EmptyString -> a = EmptyString /\ l = query_lang) /\
  (strip query <> EmptyString ->
   exists code, l = Some code /\ code <> EmptyString /\
     (truthy target_lang = true -> Some code = target_lang) /\
     (truthy target_lang = false -> truthy query_lang = true -> Some code = query_lang) /\
     (truthy target_lang = false -> truthy query_lang = false -> code = "en"%string)).
Proof.
  intros H. destruct (generate_lang_cases _ _ _ _ _ _ _ _ H) as [[E [Ha Hl]]|[E Hl]].
  - split; [auto | intros N; contradiction].
  - split; [intros N; contradiction|]. intros _.
    exists (desired_lang_code target_lang query_lang). split; [exact Hl|].
    exact (desired_lang_code_cases target_lang query_lang).
Qed.

Lemma generate_answer_language_witness :
  exists a l,
    generate llm_offline replies_failed "hello"%string None [] (Some "fr"%string) = AOk (a, l) /\
    (strip "hello" = EmptyString -> a = EmptyString /\ l = None) /\
    (strip "hello" <> EmptyString ->
     exists code, l = Some code /\ code <> EmptyString /\
       (truthy (Some "fr"%string) = true -> Some code = Some "fr"%string) /\
       (truthy (Some "fr"%string) = false -> truthy None = true -> Some code = None) /\
       (truthy (Some "fr"%string) = false -> truthy None = false -> code = "en"%string)).
Proof.
  do 2 eexists. split; [reflexivity|].
  eapply (generate_answer_language llm_offline replies_failed "hello"%string None []
            (Some "fr"%string)). reflexivity.
Defined.

Lemma opt_str_eqb_refl (o : option string) : opt_str_eqb o o = true.
Proof. destruct o; simpl; [apply String.eqb_refl | reflexivity]. Qed.

Lemma answer_lang_first_branch (query : string) (query_lang target_lang l : option string)
  (a : string) :
  (strip query = EmptyString /\ a = EmptyString /\ l = query_lang) \/
  (strip query <> EmptyString /\
   l = Some (desired_lang_code (py_or query_lang target_lang) query_lang)) ->
  truthy query_lang && truthy l && negb (opt_str_eqb l query_lang) = false.
Proof.
  intros [[_ [_ ->]]|[_ ->]]; [rewrite opt_str_eqb_refl; apply andb_false_r|].
  destruct (truthy query_lang) eqn:Tq; [|reflexivity].
  assert (Hp : py_or query_lang target_lang = query_lang) by (unfold py_or; rewrite Tq; reflexivity).
  rewrite Hp. destruct (desired_lang_code_cases query_lang query_lang) as [_ [H1 _]].
  rewrite (H1 Tq), opt_str_eqb_refl. apply andb_false_r.
Qed.

(** X19: the answer text and language that [/query] returns are always the
    ones [generate] produced: the branch of lines 100-106 that would
    translate the answer into the query's language never runs, because
    [generate] is asked for the query's language whenever it is known. *)
Theorem run_query_answer_from_generate (cfg : llm_config) (net : llm_replies)
  (tr_openai tr_primary : chat_response) (query : string)
  (query_lang target_lang : option string) (docs : list RetrievedChunk)
  (answer_text : string) (answer_lang translated : option string) :
  run_query_answer cfg net tr_openai tr_primary query query_lang target_lang docs =
    AOk (answer_text, answer_lang, translated) ->
  generate cfg net query query_lang docs (py_or query_lang target_lang) =
    AOk (answer_text, answer_lang).
Proof.
  unfold run_query_answer, abind.
  destruct (generate cfg net query query_lang docs (py_or query_lang target_lang))
    as [[a l]|e] eqn:G; [|discriminate].
  rewrite (answer_lang_first_branch query query_lang target_lang l a
             (generate_lang_cases _ _ _ _ _ _ _ _ G)).
  destruct (_ && _ && _); [destruct (negb _)|];
    intros H; injection H as <- <- _; reflexivity.
Qed.

Lemma run_query_answer_from_generate_witness :
  exists a l t,
    run_query_answer llm_offline replies_failed ChatFailed ChatFailed "hello"%string
      (Some "de"%string) (Some "fr"%string) [] = AOk (a, l, t) /\
    generate llm_offline replies_failed "hello"%string (Some "de"%string) []
      (py_or (Some "de"%string) (Some "fr"%string)) = AOk (a, l).
Proof.
  do 3 eexists. split; [reflexivity|].
  eapply (run_query_answer_from_generate llm_offline replies_failed ChatFailed ChatFailed
            "hello"%string (Some "de"%string) (Some "fr"%string) []). reflexivity.
Defined.

(** X20: when the query's language is not detected, [/query] never
    returns an [answer_translated_text], even when a [target_lang] is
    given. *)
Theorem run_query_no_translation_without_lang (cfg : llm_config) (net : llm_replies)
  (tr_openai tr_primary : chat_response) (query : string)
  (query_lang target_lang : option string) (docs : list RetrievedChunk)
  (answer_text : string) (answer_lang translated : option string) :
  truthy query_lang = false ->
  run_query_answer cfg net tr_openai tr_primary query query_lang target_lang docs =
    AOk (answer_text, answer_lang, translated) ->
  translated = None.
Proof.
  intros Tq. unfold run_query_answer, abind.
  destruct (generate cfg net query query_lang docs (py_or query_lang target_lang))
    as [[a l]|e] eqn:G; [|discriminate].
  rewrite Tq. simpl andb. cbv iota.
  assert (Hp : py_or query_lang target_lang = target_lang) by (unfold py_or; rewrite Tq; reflexivity).
  rewrite Hp in G.
  assert (Hc : truthy target_lang && truthy l && negb (opt_str_eqb target_lang l) = false).
  { destruct (generate_lang_cases _ _ _ _ _ _ _ _ G) as [[_ [_ ->]]|[_ ->]].
    - rewrite Tq, andb_false_r. reflexivity.
    - destruct (truthy target_lang) eqn:Tt; [|reflexivity].
      destruct (desired_lang_code_cases target_lang query_lang) as [_ [H1 _]].
      rewrite (H1 Tt), opt_str_eqb_refl. apply andb_false_r. }
  rewrite Hc. intros H. injection H as _ _ <-. reflexivity.
Qed.

Lemma run_query_no_translation_without_lang_witness :
  exists a l t,
    run_query_answer llm_offline replies_failed ChatFailed ChatFailed "hello"%string
      None (Some "fr"%string) [] = AOk (a, l, t) /\ t = None.
Proof.
  do 3 eexists. split; [reflexivity|].
  eapply (run_query_no_translation_without_lang llm_offline replies_failed ChatFailed
            ChatFailed "hello"%string None (Some "fr"%string) []); reflexivity.
Defined.
